(** * cagrx: return metrics over NAV series

    A shallow embedding of [src/cagrx/return_metrics.py]: [cagr],
    [calculate_trailing_cagr], [calculate_rolling_returns], [xirr] and
    [calculate_sip_returns], with the properties the specification states
    about them, and of [split_into_date_pairs] of [src/cagrx/utils.py]
    and the loops of [get_nav_history] and [_get_schemes_from_amfi] of
    [src/cagrx/amfi.py].

    Conventions of the embedding.
    - A pandas frame with a datetime index and one value column is the list
      of its rows, [(index, value)], in row order.
    - A date is its proleptic Gregorian day number; [DateOffset] arithmetic
      goes through the civil calendar.
    - Numbers are kept behind the interface [Arith]: the program's control
      flow is proved for every implementation of the arithmetic, and
      [Q_arith] (exact rationals) runs it on concrete inputs, and
      [float_arith] (53 significant bits) where rounding matters. Values are
      numbers: a NaN appears only where pandas makes one, for a row that
      [merge_asof] could not match, and is an [option].
    - Division on pandas and numpy values, which raises nothing, is [div];
      the division and the power of [xirr], on Python numbers, raise
      [ZeroDivisionError] and are [py_div] and [py_pow].
    - A raised exception is a value of [exn]; [result] is the error monad. *)

From Stdlib Require Import ZArith QArith Qabs Qround Lia Ascii.
From stdpp Require Import base option list sorting strings pretty gmap.

Local Open Scope Z_scope.

(** ** Exceptions and the error monad *)

(** One constructor per [raise] of the module, and one per exception of the
    Python runtime or of pandas that the modelled code can let through. *)
Inductive exn : Type :=
  | InvalidCagrData        (* ValueError("Invalid data for CAGR calculation.") *)
  | LengthMismatch         (* ValueError("cashflows and dates must have the same length") *)
  | TooFewCashflows        (* ValueError("At least 2 cash flows are required") *)
  | DerivativeTooSmall     (* ValueError("XIRR calculation failed: derivative too small") *)
  | RateOutOfBounds        (* ValueError("XIRR calculation failed: rate out of reasonable bounds") *)
  | DidNotConverge (max_iterations : Z)
                           (* ValueError(f"XIRR did not converge after {max_iterations} iterations") *)
  | IndexError             (* .iloc[0], .iloc[-1], .index[0], .index[-1] of an empty frame *)
  | ZeroDivisionError      (* float division by zero, 0.0 to a negative power *)
  | KeysNotSorted          (* merge_asof: ValueError("left keys must be sorted") *)
  | IncompatibleMergeKeys  (* merge_asof: MergeError("incompatible merge keys ...") *)
  | EmptyArgmax            (* idxmax / idxmin of an empty column *)
  | AmbiguousLabel         (* .loc[label] that selects several rows *)
  | KeyError.              (* .loc[label] that selects no row *)

Global Instance exn_eq_dec : EqDecision exn.
Proof. solve_decision. Defined.

(** The failure kinds of the specification's taxonomy. *)
Inductive failure_kind : Type :=
  | InvalidInput
  | EmptyResult
  | ConvergenceFailure
  | OutOfBounds.

Global Instance failure_kind_eq_dec : EqDecision failure_kind.
Proof. solve_decision. Defined.

(** The kind the specification gives each documented failure; the exceptions
    the module only lets through have none. *)
Definition kind_of (e : exn) : option failure_kind :=
  match e with
  | InvalidCagrData | LengthMismatch | TooFewCashflows => Some InvalidInput
  | DerivativeTooSmall | DidNotConverge _ => Some ConvergenceFailure
  | RateOutOfBounds => Some OutOfBounds
  | EmptyArgmax => Some EmptyResult
  | IndexError | ZeroDivisionError | KeysNotSorted | IncompatibleMergeKeys
  | AmbiguousLabel | KeyError => None
  end.

Inductive result (A : Type) : Type :=
  | Ok (a : A)
  | Raise (e : exn).
Global Arguments Ok {A} a.
Global Arguments Raise {A} e.

Global Instance result_ret : MRet result := λ A a, Ok a.
Global Instance result_bind : MBind result := λ A B f m,
  match m with
  | Ok a => f a
  | Raise e => Raise e
  end.
Global Instance result_fmap : FMap result := λ A B f m,
  match m with
  | Ok a => Ok (f a)
  | Raise e => Raise e
  end.

Definition fails_with {A} (r : result A) (k : failure_kind) : Prop :=
  ∃ e, r = Raise e ∧ kind_of e = Some k.

(** ** Dates *)

(** A date is the number of days since 1970-01-01. *)
Abbreviation date := Z (only parsing).

Definition is_leap (y : Z) : bool :=
  (y mod 4 =? 0) && (negb (y mod 100 =? 0) || (y mod 400 =? 0)).

Definition days_in_month (y m : Z) : Z :=
  if m =? 2 then (if is_leap y then 29 else 28)
  else if (m =? 4) || (m =? 6) || (m =? 9) || (m =? 11) then 30
  else 31.

(** Day number of the civil date [y-m-d] (months 1..12, days 1..31). *)
Definition days_from_civil (y m d : Z) : Z :=
  let y' := if m <=? 2 then y - 1 else y in
  let era := y' / 400 in
  let yoe := y' - era * 400 in
  let mp := (m + 9) mod 12 in
  let doy := (153 * mp + 2) / 5 + d - 1 in
  let doe := yoe * 365 + yoe / 4 - yoe / 100 + doy in
  era * 146097 + doe - 719468.

(** Civil date [(y, m, d)] of a day number. *)
Definition civil_from_days (z : Z) : Z * Z * Z :=
  let z' := z + 719468 in
  let era := z' / 146097 in
  let doe := z' - era * 146097 in
  let yoe := (doe - doe / 1460 + doe / 36524 - doe / 146096) / 365 in
  let doy := doe - (365 * yoe + yoe / 4 - yoe / 100) in
  let mp := (5 * doy + 2) / 153 in
  let d := doy - (153 * mp + 2) / 5 + 1 in
  let m := if mp <? 10 then mp + 3 else mp - 9 in
  let y := yoe + era * 400 in
  (if m <=? 2 then y + 1 else y, m, d).

(** [pd.DateOffset(years=.., months=.., days=..)]. *)
Record DateOffset : Type := mkDateOffset {
  off_years : Z;
  off_months : Z;
  off_days : Z
}.

Definition years_offset (n : Z) : DateOffset := mkDateOffset n 0 0.

(** [d - off]: the years and months are taken off the civil date, the day of
    the month is clipped to the length of the month reached, then the days
    are taken off. *)
Definition date_sub (d : date) (off : DateOffset) : date :=
  let '(y, m, dd) := civil_from_days d in
  let months := (y - off_years off) * 12 + (m - 1) - off_months off in
  let y' := months / 12 in
  let m' := months mod 12 + 1 in
  let dd' := Z.min dd (days_in_month y' m') in
  days_from_civil y' m' dd' - off_days off.

(** ** Arithmetic *)

(** The numeric operations the module uses, on Python and numpy floats. *)
Class Arith (F : Type) : Type := {
  lit : Q → F;              (* a numeric literal, an int used as a float *)
  add : F → F → F;
  sub : F → F → F;
  mul : F → F → F;
  div : F → F → F;          (* true division, divisor not zero *)
  pow : F → F → F;          (* x ** y *)
  opp : F → F;
  abs : F → F;
  ltb : F → F → bool;
  leb : F → F → bool;
  eqb : F → F → bool;
  round : F → Z → F         (* round(x, ndigits) *)
}.

Declare Scope arith_scope.
Delimit Scope arith_scope with F.
Infix "+" := add : arith_scope.
Infix "-" := sub : arith_scope.
Infix "*" := mul : arith_scope.
Infix "/" := div : arith_scope.
Infix "**" := pow (at level 30, right associativity) : arith_scope.
Notation "- x" := (opp x) : arith_scope.
Infix "<?" := ltb : arith_scope.
Infix "<=?" := leb : arith_scope.
Infix "=?" := eqb : arith_scope.

Definition of_Z `{Arith F} (z : Z) : F := lit (inject_Z z).
Definition zero `{Arith F} : F := of_Z 0.
Definition one `{Arith F} : F := of_Z 1.
Global Arguments of_Z : simpl never.
Global Arguments zero : simpl never.
Global Arguments one : simpl never.

(** *** Exact rational arithmetic *)

Module QExact.

Definition qlit (q : Q) : Q := Qred q.
Definition qadd (x y : Q) : Q := Qred (Qplus x y).
Definition qsub (x y : Q) : Q := Qred (Qminus x y).
Definition qmul (x y : Q) : Q := Qred (Qmult x y).
Definition qdiv (x y : Q) : Q := Qred (Qdiv x y).
Definition qopp (x : Q) : Q := Qred (Qopp x).
Definition qabs (x : Q) : Q := Qred (Qabs x).
Definition qltb (x y : Q) : bool := negb (Qle_bool y x).
Definition qleb (x y : Q) : bool := Qle_bool x y.
Definition qeqb (x y : Q) : bool := Qeq_bool x y.

(** Rounding to [n] decimals, halves to the even neighbour. *)
Definition qround (x : Q) (n : Z) : Q :=
  let s := inject_Z (10 ^ n) in
  let y := Qmult x s in
  let f := Qfloor y in
  let r := Qminus y (inject_Z f) in
  let k :=
    match Qcompare r (1 # 2) with
    | Lt => f
    | Gt => f + 1
    | Eq => if Z.even f then f else f + 1
    end in
  Qred (Qdiv (inject_Z k) s).

(** The [q]-th root of [x > 0] by bisection of [[0, x + 1]]. *)
Fixpoint qroot_bisect (fuel : nat) (q : positive) (x lo hi : Q) : Q :=
  let mid := Qred (Qdiv (Qplus lo hi) 2) in
  match fuel with
  | O => mid
  | S fuel' =>
      if Qle_bool (Qpower mid (Zpos q)) x
      then qroot_bisect fuel' q x mid hi
      else qroot_bisect fuel' q x lo mid
  end.

Definition qroot (q : positive) (x : Q) : Q :=
  qroot_bisect 64 q x 0 (Qplus x 1).

(** [x ** y]: exact when the exponent is an integer or the base is zero,
    and for a positive base and the exponent [p/q] the [p]-th power of an
    approximate [q]-th root. *)
Definition qpow (x y : Q) : Q :=
  let y := Qred y in
  if Qeq_bool x 0 then (if Qeq_bool y 0 then 1 else 0)
  else if Pos.eqb (Qden y) 1 then Qred (Qpower x (Qnum y))
  else Qred (Qpower (qroot (Qden y) x) (Qnum y)).

End QExact.

Global Instance Q_arith : Arith Q := {|
  lit := QExact.qlit;
  add := QExact.qadd;
  sub := QExact.qsub;
  mul := QExact.qmul;
  div := QExact.qdiv;
  pow := QExact.qpow;
  opp := QExact.qopp;
  abs := QExact.qabs;
  ltb := QExact.qltb;
  leb := QExact.qleb;
  eqb := QExact.qeqb;
  round := QExact.qround
|}.

(** ** Sorting *)

Section sorting.
Context {A : Type} (R : relation A) `{!RelDecision R}.

(** [x] put before the first element that does not come before it. *)
Fixpoint insert_sorted (x : A) (l : list A) : list A :=
  match l with
  | [] => [x]
  | y :: l' => if decide (R x y) then x :: l else y :: insert_sorted x l'
  end.

(** A stable sort: elements that compare equal keep the order they came
    in, and a sorted list is left as it is. *)
Definition stable_sort (l : list A) : list A := foldr insert_sorted [] l.

End sorting.

(** ** Frames *)

Section frames.
Context {F : Type}.

(** [df[column].iloc[0]] and [df[column].iloc[-1]]. *)
Definition iloc_first (df : list (date * F)) : result F :=
  match df with
  | [] => Raise IndexError
  | r :: _ => Ok r.2
  end.

Definition iloc_last (df : list (date * F)) : result F :=
  match last df with
  | None => Raise IndexError
  | Some r => Ok r.2
  end.

(** [df.index[0]] and [df.index[-1]]. *)
Definition index_first (df : list (date * F)) : result date :=
  match df with
  | [] => Raise IndexError
  | r :: _ => Ok r.1
  end.

Definition index_last (df : list (date * F)) : result date :=
  match last df with
  | None => Raise IndexError
  | Some r => Ok r.1
  end.

(** The order of two rows by their index. *)
Definition index_le (a b : date * F) : Prop := a.1 ≤ b.1.

Global Instance index_le_dec : RelDecision index_le.
Proof. intros a b. unfold index_le. apply _. Defined.

(** [df.sort_index()]: a frame whose index is ascending is returned as it
    is. Among rows with equal dates, whose order pandas leaves to the kind
    of sort, the order they came in is kept. *)
Definition sort_index (df : list (date * F)) : list (date * F) :=
  stable_sort index_le df.

(** [df.loc[start_date:]] on a frame sorted by index: the rows from
    [start_date] on. *)
Definition loc_from (df : list (date * F)) (start_date : date) : list (date * F) :=
  filter (λ r, start_date ≤ r.1) df.

(** The monotonicity test [pd.merge_asof] makes on its keys. *)
Definition keys_sorted (keys : list date) : bool :=
  bool_decide (Sorted Z.le keys).

(** [merge_asof], direction ['backward']: the last row of [right] whose
    key is at most [key]. *)
Definition asof_backward (right : list (date * F)) (key : date) : option (date * F) :=
  last (filter (λ r, r.1 ≤ key) right).

(** [merge_asof], direction ['forward']: the first row of [right] whose
    key is at least [key]. *)
Definition asof_forward (right : list (date * F)) (key : date) : option (date * F) :=
  head (filter (λ r, key ≤ r.1) right).

End frames.

(** The order of two positions by the date they hold. *)
Definition key_le (a b : nat * date) : Prop := a.2 ≤ b.2.

Global Instance key_le_dec : RelDecision key_le.
Proof. intros a b. unfold key_le. apply _. Defined.

(** ** [cagr] *)

Section metrics.
Context `{Arith F}.
Local Open Scope arith_scope.

Definition cagr (df : list (date * F)) : result F :=
  start_value ← iloc_first df;
  end_value ← iloc_last df;
  last_date ← index_last df;
  first_date ← index_first df;
  let num_years := of_Z (last_date - first_date) / of_Z 365 in
  if (start_value <=? zero) || (num_years <=? zero)
  then Raise InvalidCagrData
  else
    let cagr := (end_value / start_value) ** (one / num_years) - one in
    Ok (round cagr 3).

(** ** [calculate_trailing_cagr] *)

(** The key [f'{period}Y_CAGR']. *)
Definition period_key (period : Z) : string := pretty period +:+ "Y_CAGR".

(** The body of [for period in periods], on the sorted frame. *)
Fixpoint trailing_loop (df : list (date * F)) (periods : list Z)
    (cagr_metrics : gmap string (option F)) : result (gmap string (option F)) :=
  match periods with
  | [] => Ok cagr_metrics
  | period :: periods' =>
      if bool_decide (period = (-1)%Z) then
        v ← cagr df;
        trailing_loop df periods' (<["Max_CAGR" := Some v]> cagr_metrics)
      else
        last_date ← index_last df;
        let start_date := date_sub last_date (years_offset period) in
        first_date ← index_first df;
        if bool_decide (start_date < first_date)%Z then
          trailing_loop df periods' (<[period_key period := None]> cagr_metrics)
        else
          v ← cagr (loc_from df start_date);
          trailing_loop df periods' (<[period_key period := Some v]> cagr_metrics)
  end.

Definition calculate_trailing_cagr (df : list (date * F)) (periods : list Z)
    : result (gmap string (option F)) :=
  let df := sort_index df in
  trailing_loop df periods ∅.

(** ** [calculate_rolling_returns] *)

(** A row of [rolling_df]: its index (the current date), [nav_current],
    [past_date], and the row of the frame matched to [past_date]. *)
Record rolling_row : Type := mkRollingRow {
  row_name : date;
  nav_current : F;
  past_date : date;
  row_match : option (date * F)
}.

(** A row that survived [dropna], with its [returns]. *)
Record returns_row : Type := mkReturnsRow {
  ret_name : date;
  ret_past_date : date;
  ret_matched_date : date;
  returns : F
}.

Record rolling_metrics : Type := mkRollingMetrics {
  max_returns : F;
  max_return_period : date * date;
  min_returns : F;
  min_return_period : date * date;
  avg_return : F
}.

(** [pd.merge_asof(df, df[['nav']], left_on='past_date', right_on='date')].
    On an empty frame [dates_in_df - period] is an empty array without a
    datetime type, which [merge_asof] refuses as a key before it looks at
    the order of the keys. *)
Definition merge_past (df : list (date * F)) (period : DateOffset)
    : result (list rolling_row) :=
  match df with
  | [] => Raise IncompatibleMergeKeys
  | _ :: _ =>
      let left := map (λ r, (r.1, r.2, date_sub r.1 period)) df in
      if negb (keys_sorted (map snd left)) then Raise KeysNotSorted
      else if negb (keys_sorted (map fst df)) then Raise KeysNotSorted
      else Ok (map (λ l, mkRollingRow l.1.1 l.1.2 l.2 (asof_backward df l.2)) left)
  end.

(** [dropna(subset=['nav_past'])] and the [returns] column. *)
Definition with_returns (rows : list rolling_row) : list returns_row :=
  omap (λ r,
    match row_match r with
    | None => None
    | Some m =>
        Some (mkReturnsRow (row_name r) (past_date r) m.1
                (round ((nav_current r - m.2) / m.2) 3))
    end) rows.

(** [rolling_df['returns'].idxmax()] and [idxmin()]: the label of the first
    row that holds the extreme value. *)
Fixpoint arg_extreme (better : F → F → bool) (best : returns_row)
    (rows : list returns_row) : returns_row :=
  match rows with
  | [] => best
  | r :: rows' =>
      if better (returns r) (returns best)
      then arg_extreme better r rows'
      else arg_extreme better best rows'
  end.

Definition idx_extreme (better : F → F → bool) (rows : list returns_row)
    : result date :=
  match rows with
  | [] => Raise EmptyArgmax
  | r :: rows' => Ok (ret_name (arg_extreme better r rows'))
  end.

Definition idxmax := idx_extreme (λ x best, best <? x).
Definition idxmin := idx_extreme (λ x best, x <? best).

(** [rolling_df.loc[label]], read as one row. *)
Definition loc_row (rows : list returns_row) (label : date) : result returns_row :=
  match filter (λ r, ret_name r = label) rows with
  | [r] => Ok r
  | [] => Raise KeyError
  | _ => Raise AmbiguousLabel
  end.

(** [Series.sum()] and [Series.mean()]. *)
Definition series_sum (xs : list F) : F := foldl add zero xs.
Definition series_mean (xs : list F) : F :=
  series_sum xs / of_Z (Z.of_nat (length xs)).

Definition calculate_rolling_returns (df : list (date * F)) (period : DateOffset)
    : result rolling_metrics :=
  rolling_df ← merge_past df period;
  let rolling_df := with_returns rolling_df in
  max_label ← idxmax rolling_df;
  max_row ← loc_row rolling_df max_label;
  min_label ← idxmin rolling_df;
  min_row ← loc_row rolling_df min_label;
  Ok {| max_returns := returns max_row;
        max_return_period := (ret_past_date max_row, ret_name max_row);
        min_returns := returns min_row;
        min_return_period := (ret_past_date min_row, ret_name min_row);
        avg_return := round (series_mean (map returns rolling_df)) 3 |}.

(** ** [xirr] *)

(** Python's float division and power, which raise on a zero divisor and
    on zero to a negative power. Two more things a power can do are outside
    the model: for a base below zero and a fractional exponent Python
    leaves the reals (the complex rate then fails the bounds test with a
    TypeError), and a result beyond the largest float raises OverflowError.
    The loop keeps its rates within [-0.99, 10], so both can only happen
    for a guess below -1 or above 10, or for dates centuries apart. *)
Definition py_div (x y : F) : result F :=
  if y =? zero then Raise ZeroDivisionError else Ok (x / y).

Definition py_pow (x y : F) : result F :=
  if (x =? zero) && (y <? zero) then Raise ZeroDivisionError else Ok (x ** y).

(** [sum(term(cf, day) for cf, day in zip(cashflows, days))], from the
    accumulator [acc]. *)
Fixpoint sum_terms (term : F → Z → result F) (flows : list (F * Z)) (acc : F)
    : result F :=
  match flows with
  | [] => Ok acc
  | (cf, day) :: flows' =>
      t ← term cf day;
      sum_terms term flows' (acc + t)
  end.

(** [cf / ((1 + rate) ** (day / 365.0))]. *)
Definition npv_term (rate cf : F) (day : Z) : result F :=
  p ← py_pow (one + rate) (of_Z day / lit 365);
  py_div cf p.

(** [-cf * day / 365.0 / ((1 + rate) ** (day / 365.0 + 1))]. *)
Definition dnpv_term (rate cf : F) (day : Z) : result F :=
  p ← py_pow (one + rate) (of_Z day / lit 365 + one);
  py_div ((- cf) * of_Z day / lit 365) p.

Definition npv_at (flows : list (F * Z)) (rate : F) : result F :=
  sum_terms (npv_term rate) flows zero.

Definition dnpv_at (flows : list (F * Z)) (rate : F) : result F :=
  sum_terms (dnpv_term rate) flows zero.

(** One pass through the body of [for iteration in range(max_iterations)]:
    the value returned ([inl]) or the rate of the next pass ([inr]). *)
Definition newton_step (flows : list (F * Z)) (tolerance rate : F)
    : result (F + F) :=
  npv ← npv_at flows rate;
  dnpv ← dnpv_at flows rate;
  if abs npv <? tolerance then Ok (inl (round rate 6))
  else if abs dnpv <? lit (1 # 10000000000) then Raise DerivativeTooSmall
  else
    step ← py_div npv dnpv;
    let rate := rate - step in
    if (rate <? lit (- (99 # 100))) || (lit 10 <? rate)
    then Raise RateOutOfBounds
    else Ok (inr rate).

(** The loop, [n] passes left, with the rates at which a pass began. *)
Fixpoint newton_loop (flows : list (F * Z)) (max_iterations : Z)
    (tolerance : F) (n : nat) (rate : F) : result F * list F :=
  match n with
  | O => (Raise (DidNotConverge max_iterations), [])
  | S n' =>
      match newton_step flows tolerance rate with
      | Raise e => (Raise e, [rate])
      | Ok (inl r) => (Ok r, [rate])
      | Ok (inr rate') =>
          let '(r, visited) := newton_loop flows max_iterations tolerance n' rate' in
          (r, rate :: visited)
      end
  end.

(** [dates.argsort()]: the positions of [dates], in the order of their
    dates. Among positions of equal dates, whose order numpy leaves to the
    kind of sort, the order they came in is kept, as the insertion sort
    numpy applies to short arrays does. *)
Definition argsort (dates : list date) : list nat :=
  map fst (stable_sort key_le (zip (seq 0 (length dates)) dates)).

(** The cash flows and their days from the first date, in date order. *)
Definition sorted_flows (cashflows : list F) (dates : list date) : list (F * Z) :=
  let sorted_indices := argsort dates in
  let cashflows := map (λ i, nth i cashflows zero) sorted_indices in
  let dates := map (λ i, nth i dates 0%Z) sorted_indices in
  let start_date := nth 0 dates 0%Z in
  let days := map (λ date, date - start_date)%Z dates in
  zip cashflows days.

(** [xirr], with the rates at which a pass of the loop began. *)
Definition xirr_run (cashflows : list F) (dates : list date)
    (guess : F) (max_iterations : Z) (tolerance : F) : result F * list F :=
  if bool_decide (length cashflows ≠ length dates) then (Raise LengthMismatch, [])
  else if bool_decide (length cashflows < 2)%nat then (Raise TooFewCashflows, [])
  else
    newton_loop (sorted_flows cashflows dates) max_iterations tolerance
      (Z.to_nat max_iterations) guess.

Definition xirr (cashflows : list F) (dates : list date)
    (guess : F) (max_iterations : Z) (tolerance : F) : result F :=
  (xirr_run cashflows dates guess max_iterations tolerance).1.

(** ** [calculate_sip_returns] *)

(** A row of [merged]: the contribution and the NAV matched forward. *)
Record merged_row : Type := mkMergedRow {
  sip_date : date;
  amount : F;
  matched_nav : option F
}.

Record sip_returns : Type := mkSipReturns {
  total_invested : F;
  current_value : F;
  absolute_returns : F;
  return_percentage : F;
  annualized_return : F;
  total_units : F;
  current_nav : F;
  investment_period_days : Z
}.

(** [pd.merge_asof(sip_cashflows, nav_df[[column]], left_index=True,
    right_index=True, direction='forward')]: a left join, every
    contribution keeps its row. *)
Definition merge_forward (sip_cashflows nav_df : list (date * F)) : list merged_row :=
  map (λ c, mkMergedRow c.1 c.2 (snd <$> asof_forward nav_df c.1)) sip_cashflows.

(** [merged['amount'] / merged[column]]: NaN where no NAV was matched. *)
Definition units (r : merged_row) : option F :=
  (λ nav, amount r / nav) <$> matched_nav r.

(** [Series.sum()] of a column with NaN entries, which it skips. *)
Definition series_sum_skipna (xs : list (option F)) : F :=
  series_sum (omap id xs).

(** [round(x, n)] of a variable that holds a float ([Some]) or the int
    literal [0] ([None]); rounding the int [0] gives [0]. *)
Definition round_or_zero (x : option F) (n : Z) : F :=
  match x with
  | Some v => round v n
  | None => zero
  end.

Definition calculate_sip_returns (sip_cashflows nav_df : list (date * F))
    : result sip_returns :=
  let sip_cashflows := sort_index sip_cashflows in
  let nav_df := sort_index nav_df in
  let merged := merge_forward sip_cashflows nav_df in
  let total_invested := series_sum (map amount merged) in
  let total_units := series_sum_skipna (map units merged) in
  current_nav ← iloc_last nav_df;
  let current_value := total_units * current_nav in
  let absolute_returns := current_value - total_invested in
  let return_percentage :=
    if zero <? total_invested
    then Some ((absolute_returns / total_invested) * of_Z 100)
    else None in
  annualized_return ←
    (if bool_decide (1 < length sip_cashflows)%nat then
       last_date ← index_last nav_df;
       first_date ← index_first sip_cashflows;
       let days := (last_date - first_date)%Z in
       let years := of_Z days / lit (36525 # 100) in
       if (zero <? years) && (zero <? total_invested)
       then Ok (Some (((current_value / total_invested) ** (one / years) - one)
                        * of_Z 100))
       else Ok None
     else Ok None);
  period_days ←
    (if bool_decide (0 < length sip_cashflows)%nat then
       last_date ← index_last nav_df;
       first_date ← index_first sip_cashflows;
       Ok (last_date - first_date)%Z
     else Ok 0%Z);
  Ok {| total_invested := round total_invested 2;
        current_value := round current_value 2;
        absolute_returns := round absolute_returns 2;
        return_percentage := round_or_zero return_percentage 2;
        annualized_return := round_or_zero annualized_return 2;
        total_units := round total_units 4;
        current_nav := round current_nav 2;
        investment_period_days := period_days |}.

End metrics.

Global Arguments rolling_row F : clear implicits.
Global Arguments returns_row F : clear implicits.
Global Arguments rolling_metrics F : clear implicits.
Global Arguments merged_row F : clear implicits.
Global Arguments sip_returns F : clear implicits.

(** * Definitions of the statements *)

(** ** Exact addition *)

(** The laws of exact addition, under which a sum does not depend on the
    order of its terms. *)
Class ArithLaws (F : Type) `{Arith F} : Prop := {
  add_comm : ∀ x y : F, add x y = add y x;
  add_assoc : ∀ x y z : F, add x (add y z) = add (add x y) z
}.

(** ** Keys *)

(** [pretty] never begins with the letter of ["Max_CAGR"]. *)
Definition starts_plain (s : string) : Prop :=
  match s with
  | EmptyString => False
  | String a _ => a ≠ "M"%char
  end.

Section statements.
Context `{Arith F}.
Local Open Scope arith_scope.
Implicit Types df sip nav : list (date * F).
Implicit Types flows pairs : list (F * Z).

(** ** [calculate_trailing_cagr] *)

(** The key and the entry one pass of the loop writes. *)
Definition window_key (period : Z) : string :=
  if bool_decide (period = (-1)%Z) then "Max_CAGR" else period_key period.

Definition window_entry df (period : Z) : result (option F) :=
  if bool_decide (period = (-1)%Z) then Some <$> cagr df
  else
    last_date ← index_last df;
    first_date ← index_first df;
    let start_date := date_sub last_date (years_offset period) in
    if bool_decide (start_date < first_date)%Z then Ok None
    else Some <$> cagr (loc_from df start_date).

(** ** [calculate_sip_returns] *)

(** [total_invested] and [total_units] before rounding. *)
Definition sip_invested sip nav : F :=
  series_sum (map amount (merge_forward (sort_index sip) (sort_index nav))).

Definition sip_units sip nav : F :=
  series_sum_skipna (map units (merge_forward (sort_index sip) (sort_index nav))).

(** The amounts of the contributions matched to a NAV at or after their
    date, as the specification sums them. *)
Definition matched_amounts sip nav : list F :=
  omap (λ c, match asof_forward nav c.1 with
             | Some _ => Some c.2
             | None => None
             end) sip.

(** The body of [if len(sip_cashflows) > 1: ... else: ...]. *)
Definition sip_annualized sip nav : result (option F) :=
  if bool_decide (1 < length (sort_index sip))%nat then
    index_last (sort_index nav) ≫= λ last_date,
    index_first (sort_index sip) ≫= λ first_date,
    let years := of_Z (last_date - first_date) / lit (36525 # 100) in
    if (zero <? years) && (zero <? sip_invested sip nav)
    then Ok (Some (((sip_units sip nav * default zero (snd <$> last (sort_index nav))
                      / sip_invested sip nav) ** (one / years) - one) * of_Z 100))
    else Ok None
  else Ok None.

(** ** [xirr] *)



(** The cash flows paired with their dates, in date order. *)
Definition sorted_pairs (cashflows : list F) (dates : list date) : list (F * Z) :=
  map (λ i, (nth i cashflows zero, nth i dates 0%Z)) (argsort dates).

(** The dates of [pairs] as days from the first of them. *)
Definition shift_days pairs : list (F * Z) :=
  map (λ p, (p.1, p.2 - nth 0 (map snd pairs) 0)%Z) pairs.

End statements.

(** ** Sample inputs, on exact rationals *)

Module Samples.

Definition day (y m d : Z) : date := days_from_civil y m d.

(** Two NAV points one year apart, the value doubled. *)
Definition nav_doubling : list (date * Q) :=
  [(day 2021 1 1, 100%Q); (day 2022 1 1, 200%Q)].

(** The same points, latest first. *)
Definition nav_unsorted : list (date * Q) :=
  [(day 2022 1 1, 200%Q); (day 2021 1 1, 100%Q)].

(** Two NAV points two years apart: no point within a year of the last. *)
Definition nav_sparse : list (date * Q) :=
  [(day 2021 1 1, 100%Q); (day 2023 1 1, 400%Q)].

(** A single NAV point. *)
Definition nav_single : list (date * Q) := [(day 2020 1 1, 100%Q)].

(** Three yearly NAV points. *)
Definition nav_yearly : list (date * Q) :=
  [(day 2021 1 1, 100%Q); (day 2022 1 1, 110%Q); (day 2023 1 1, 132%Q)].

(** NAV points on two dates, and two contributions, the second one after
    the last NAV date. *)
Definition nav_short : list (date * Q) :=
  [(day 2020 1 1, 10%Q); (day 2024 1 1, 30%Q)].
Definition sip_late : list (date * Q) :=
  [(day 2020 1 1, 1000%Q); (day 2024 3 1, 1000%Q)].

(** One contribution, four years before the last NAV date. *)
Definition nav_four_years : list (date * Q) :=
  [(day 2020 1 1, 10%Q); (day 2024 1 1, 20%Q)].
Definition sip_one : list (date * Q) := [(day 2020 1 1, 1000%Q)].

(** Two contributions against the four-year NAV series. *)
Definition sip_two : list (date * Q) :=
  [(day 2020 1 1, 1000%Q); (day 2021 1 1, 1000%Q)].

(** Two cash flows one year apart, and the same two, latest first. *)
Definition flows_amounts : list Q := [(-100)%Q; 110%Q].
Definition flows_dates : list date := [day 2021 1 1; day 2022 1 1].
Definition flows_amounts_rev : list Q := [110%Q; (-100)%Q].
Definition flows_dates_rev : list date := [day 2022 1 1; day 2021 1 1].

Definition default_guess : Q := (1 # 10)%Q.
Definition default_tolerance : Q := (1 # 1000000)%Q.

End Samples.

(** * Further definitions *)

(** ** Binary floating point *)

(** Numbers with 53 significant bits, as a Python float has within its
    range: every operation gives the number with 53 significant bits
    nearest to the exact result, the even one of two equally near. The
    exponent range, the infinities and NaN are left out. *)
Module Float.

(** The exponent of the leading bit of [q ≠ 0]: the [e] with
    [2 ^ e ≤ |q| < 2 ^ (e + 1)]. *)
Definition exponent (q : Q) : Z :=
  let n := Z.abs (Qnum q) in
  let d := Zpos (Qden q) in
  let e := (Z.log2 n - Z.log2 d)%Z in
  if Qle_bool (Qpower 2 e) (Qabs q) then e else (e - 1)%Z.

(** [q] rounded to 53 significant bits. *)
Definition nearest (q : Q) : Q :=
  if Qeq_bool q 0 then 0
  else
    let ulp := Qpower 2 (exponent q - 52) in
    Qred (Qmult (QExact.qround (Qdiv q ulp) 0) ulp).

Record float : Type := Float { value : Q }.

Definition lift1 (f : Q → Q) (x : float) : float :=
  Float (nearest (f (value x))).
Definition lift2 (f : Q → Q → Q) (x y : float) : float :=
  Float (nearest (f (value x) (value y))).

End Float.

Global Instance float_arith : Arith Float.float | 100 := {|
  lit := λ q, Float.Float (Float.nearest q);
  add := Float.lift2 Qplus;
  sub := Float.lift2 Qminus;
  mul := Float.lift2 Qmult;
  div := Float.lift2 Qdiv;
  pow := Float.lift2 QExact.qpow;
  opp := Float.lift1 Qopp;
  abs := Float.lift1 Qabs;
  ltb := λ x y, QExact.qltb (Float.value x) (Float.value y);
  leb := λ x y, QExact.qleb (Float.value x) (Float.value y);
  eqb := λ x y, QExact.qeqb (Float.value x) (Float.value y);
  round := λ x n, Float.Float (Float.nearest (QExact.qround (Float.value x) n))
|}.

(** ** The order of exact numbers *)

(** The laws of [<] under which a largest and a smallest value exist. *)
Class OrderLaws (F : Type) `{Arith F} : Prop := {
  ltb_irrefl : ∀ x : F, ltb x x = false;
  ltb_trans : ∀ x y z : F, ltb x y = true → ltb y z = true → ltb x z = true
}.

Section more_statements.
Context `{Arith F}.
Implicit Types df : list (date * F).

(** The rows of [rolling_df] after the merge, when it is made. *)
Definition rolling_rows df (period : DateOffset) : list (rolling_row F) :=
  map (λ r, mkRollingRow r.1 r.2 (date_sub r.1 period)
              (asof_backward df (date_sub r.1 period))) df.

End more_statements.

(** ** [utils.split_into_date_pairs] *)

(** The dates a [datetime] holds, 0001-01-01 to 9999-12-31; the dates
    [strptime] parses with ["%Y-%m-%d"] lie between them. *)
Definition date_min : date := days_from_civil 1 1 1.
Definition date_max : date := days_from_civil 9999 12 31.

(** What [datetime] arithmetic gives: a value or its OverflowError. *)
Inductive datetime_result (A : Type) : Type :=
  | Returned (a : A)
  | OverflowError.

Global Arguments Returned {A} a.
Global Arguments OverflowError {A}.

(** [timedelta(days=days)], which holds at most 999999999 days either way. *)
Definition timedelta (days : Z) : datetime_result Z :=
  if bool_decide (-999999999 ≤ days ≤ 999999999) then Returned days
  else OverflowError.

(** [d + delta] for a [datetime] at midnight and a whole number of days. *)
Definition datetime_add (d : date) (delta : Z) : datetime_result date :=
  if bool_decide (date_min ≤ d + delta ≤ date_max) then Returned (d + delta)
  else OverflowError.

(** The [while] loop, [fuel] tests of its condition allowed; [None] when
    they do not suffice. *)
Fixpoint split_loop (fuel : nat) (current_start end_date : date) (n_days : Z)
    (pairs : list (date * date)) : option (datetime_result (list (date * date))) :=
  match fuel with
  | O => None
  | S fuel' =>
      if bool_decide (current_start < end_date) then
        match timedelta (n_days - 1) with
        | OverflowError => Some OverflowError
        | Returned delta =>
            match datetime_add current_start delta with
            | OverflowError => Some OverflowError
            | Returned stop =>
                let current_end := Z.min stop end_date in
                let pairs := pairs ++ [(current_start, current_end)] in
                match datetime_add current_end 1 with
                | OverflowError => Some OverflowError
                | Returned current_start =>
                    split_loop fuel' current_start end_date n_days pairs
                end
            end
        end
      else Some (Returned pairs)
  end.

(** [split_into_date_pairs] on the two parsed dates; the pairs are left as
    dates, the text of a date being [strftime] of it. *)
Definition split_into_date_pairs (fuel : nat) (start_date end_date : date)
    (n_days : Z) : option (datetime_result (list (date * date))) :=
  split_loop fuel start_date end_date n_days [].

(** The [i]-th window of [n_days] days from [start_date], cut at
    [end_date], and the windows that begin before [end_date]. *)
Definition window (start_date end_date : date) (n_days : Z) (i : nat)
    : date * date :=
  (start_date + Z.of_nat i * n_days,
   Z.min (start_date + Z.of_nat i * n_days + n_days - 1) end_date).

Definition windows (start_date end_date : date) (n_days : Z) : list (date * date) :=
  map (window start_date end_date n_days)
    (seq 0 (Z.to_nat ((end_date - start_date + n_days - 1) / n_days))).

(** ** [amfi.Amfi._get_schemes_from_amfi] *)

(** A [str]: its code points. *)
Definition str : Type := list N.

(** The [str] of an ASCII literal. *)
Definition text (s : string) : str := map N_of_ascii (String.list_ascii_of_string s).

(** [";"] and ["Mutual Fund"]. *)
Definition semicolon : N := N_of_ascii ";".
Definition mutual_fund : str := text "Mutual Fund".

Section schemes.
(** The characters [str.strip] takes for whitespace. *)
Variable isspace : N → bool.

Fixpoint lstrip (s : str) : str :=
  match s with
  | [] => []
  | c :: s' => if isspace c then lstrip s' else s
  end.

(** [s.strip()]. *)
Definition strip (s : str) : str := reverse (lstrip (reverse (lstrip s))).

(** [s.endswith(suffix)]. *)
Definition endswith (s suffix : str) : bool := bool_decide (suffix `suffix_of` s).

(** [s.split(sep)] for a separator of one character. *)
Fixpoint split (sep : N) (s : str) : list str :=
  match s with
  | [] => [[]]
  | c :: s' =>
      if decide (c = sep) then [] :: split sep s'
      else
        match split sep s' with
        | [] => [[c]]
        | field :: fields => (c :: field) :: fields
        end
  end.

(** The body of [for line in raw_lines[1:]]: a row is the fields of its
    line and the fund house, which is a [str] or [None]. *)
Fixpoint schemes_loop (raw_lines : list str) (current_fund_house : option str)
    (lines : list (list (option str))) : list (list (option str)) :=
  match raw_lines with
  | [] => lines
  | line :: raw_lines' =>
      let line := strip line in
      if endswith line mutual_fund then
        schemes_loop raw_lines' (Some line) lines
      else
        let row := split semicolon line in
        if bool_decide (length row < 5)%nat then
          schemes_loop raw_lines' current_fund_house lines
        else
          let row := (Some <$> row) ++ [current_fund_house] in
          schemes_loop raw_lines' current_fund_house (lines ++ [row])
  end.

(** The list [lines] that [_get_schemes_from_amfi] hands to [pd.DataFrame],
    from the lines [_fetch_raw_nav_lines] returned. *)
Definition get_schemes_lines (raw_lines : list str) : list (list (option str)) :=
  schemes_loop (drop 1 raw_lines) None [].

(** The last fund-house line among [before], stripped. *)
Definition fund_house_of (before : list str) : option str :=
  last (filter (λ s, endswith s mutual_fund = true) (strip <$> before)).

End schemes.

(** ** [amfi.Amfi.get_nav_history] *)

(** How a call of [get_nav_history] ends. *)
Inductive nav_history (frame error : Type) : Type :=
  | NavFrame (df : frame)    (* the frame of [_create_dataframe] *)
  | DateOverflow             (* the OverflowError of [split_into_date_pairs] *)
  | FetchFailed (e : error)  (* the exception of a request *)
  | FrameFailed (e : exn).   (* an exception of [_create_dataframe] *)

Global Arguments NavFrame {frame error} df.
Global Arguments DateOverflow {frame error}.
Global Arguments FetchFailed {frame error} e.
Global Arguments FrameFailed {frame error} e.

Section nav_history.
Context {record frame error : Type}.

(** [_fetch_historical_nav] for the scheme asked for: the records of the
    response to a request, or the exception the request raises, as the
    ValueError of a response whose status is not 200. *)
Variable _fetch_historical_nav : date → date → error + list record.

(** The frame [_create_dataframe] makes of at least one record. *)
Variable frame_of_records : list record → exn + frame.

(** [_create_dataframe]: [pd.DataFrame([])] has no column ['nav']. *)
Definition _create_dataframe (records : list record) : exn + frame :=
  match records with
  | [] => inl KeyError
  | _ :: _ => frame_of_records records
  end.

(** The loop [for from_date, to_date in date_ranges], with the requests it
    has made. *)
Fixpoint fetch_ranges (date_ranges : list (date * date))
    (nav_records : list record) (requests : list (date * date))
    : (error + list record) * list (date * date) :=
  match date_ranges with
  | [] => (inr nav_records, requests)
  | (from_date, to_date) :: date_ranges' =>
      let requests := requests ++ [(from_date, to_date)] in
      match _fetch_historical_nav from_date to_date with
      | inl e => (inl e, requests)
      | inr records =>
          fetch_ranges date_ranges' (nav_records ++ records) requests
      end
  end.

(** [get_nav_history] on the two parsed dates, with the requests made. *)
Definition get_nav_history (fuel : nat) (start_date end_date : date)
    : option (nav_history frame error * list (date * date)) :=
  match split_into_date_pairs fuel start_date end_date (365 * 5) with
  | None => None
  | Some OverflowError => Some (DateOverflow, [])
  | Some (Returned date_ranges) =>
      match fetch_ranges date_ranges [] [] with
      | (inl e, requests) => Some (FetchFailed e, requests)
      | (inr nav_records, requests) =>
          match _create_dataframe nav_records with
          | inl e => Some (FrameFailed e, requests)
          | inr df => Some (NavFrame df, requests)
          end
      end
  end.

End nav_history.

(** ** Further sample inputs *)

Module MoreSamples.

(** Whitespace, for a sample: the space and the line feed. *)
Definition space_or_newline (c : N) : bool := (c =? 32)%N || (c =? 10)%N.

(** A header, a fund house, a blank line, a scheme of that house and a
    footer of three fields. *)
Definition raw_sample : list str :=
  [text "Scheme Code;ISIN 1;ISIN 2;Scheme Name;Net Asset Value;Date";
   text "Axis Mutual Fund ";
   text " ";
   text "101;INF1;INF2;Axis Growth;12.5;01-Jan-2024 ";
   text "a;b;c"].

(** The row of the scheme. *)
Definition row_sample : list (option str) :=
  (Some <$> [text "101"; text "INF1"; text "INF2"; text "Axis Growth";
             text "12.5"; text "01-Jan-2024"])
  ++ [Some (text "Axis Mutual Fund")].

(** Five years to the day: 2015-01-01 and the date 1825 days later. *)
Definition five_years_start : date := Samples.day 2015 1 1.
Definition five_years_end : date := Samples.day 2019 12 31.

(** Five cash flows on one day that cancel in pairs but for the flow of 1,
    in two arrangements, as floats. *)
Definition flows_cancelling : list Float.float :=
  map of_Z [10 ^ 16; 1; 10 ^ 48; - 10 ^ 16; - 10 ^ 48].
Definition flows_cancelling_rev : list Float.float :=
  map of_Z [10 ^ 16; - 10 ^ 16; 10 ^ 48; - 10 ^ 48; 1].
Definition dates_same_day : list date := replicate 5 (Samples.day 2021 1 1).

(** Responses with one record, the first day of the request, and responses
    without records; the frame is the list of the records. *)
Definition fetch_first_day (from_date to_date : date) : unit + list date :=
  inr [from_date].
Definition fetch_nothing (from_date to_date : date) : unit + list date :=
  inr [].
Definition frame_of_days (records : list date) : exn + list date :=
  inr records.

End MoreSamples.

(** * Properties *)

(** ** The calendar and the exact arithmetic *)

Example date_epoch : days_from_civil 1970 1 1 = 0.
Proof. reflexivity. Qed.
Example date_2020 : days_from_civil 2020 1 1 = 18262.
Proof. reflexivity. Qed.
Example date_roundtrip : civil_from_days (days_from_civil 2021 12 31) = (2021, 12, 31).
Proof. reflexivity. Qed.
Example date_sub_leap :
  date_sub (days_from_civil 2020 2 29) (years_offset 1) = days_from_civil 2019 2 28.
Proof. reflexivity. Qed.
Example date_sub_year :
  date_sub (days_from_civil 2023 1 1) (years_offset 1) = days_from_civil 2022 1 1.
Proof. reflexivity. Qed.
Example float_tenth :
  Float.nearest (1 # 10) = (3602879701896397 # 36028797018963968)%Q.
Proof. vm_compute. reflexivity. Qed.
Example float_absorbs :
  add (of_Z (10 ^ 16)) (of_Z 1) = (of_Z (10 ^ 16) : Float.float).
Proof. vm_compute. reflexivity. Qed.
Example float_exact_sum :
  add (lit (1 # 2)) (lit (1 # 4)) = (lit (3 # 4) : Float.float).
Proof. vm_compute. reflexivity. Qed.
Example qround_half_even :
  QExact.qround (5 # 2) 0 = 2%Q ∧ QExact.qround (7 # 2) 0 = 4%Q
  ∧ QExact.qround (12345 # 10000) 3 = (617 # 500)%Q.
Proof. vm_compute. done. Qed.
Example qpow_int : QExact.qpow 2 3 = 8%Q ∧ QExact.qpow 0 0 = 1%Q ∧ QExact.qpow 0 1 = 0%Q.
Proof. vm_compute. done. Qed.
Example qpow_root :
  Qle_bool (Qabs (Qminus (QExact.qpow 4 (1 # 2)) 2)) (1 # 1000000000) = true.
Proof. vm_compute. done. Qed.

(** ** The error monad *)

Lemma bind_Ok {A B} (f : A → result B) (m : result A) (b : B) :
  m ≫= f = Ok b ↔ ∃ a, m = Ok a ∧ f a = Ok b.
Proof.
  destruct m as [a|e]; simpl; split.
  - eauto.
  - by intros (a' & [= <-] & ?).
  - done.
  - by intros (a' & ? & ?).
Qed.

Lemma bind_Raise {A B} (f : A → result B) (m : result A) (e : exn) :
  m ≫= f = Raise e ↔ m = Raise e ∨ ∃ a, m = Ok a ∧ f a = Raise e.
Proof.
  destruct m as [a|e']; simpl; split.
  - eauto.
  - by intros [?|(a' & [= <-] & ?)].
  - intros [= <-]. by left.
  - intros [[= ->]|(a' & ? & ?)]; [done|discriminate].
Qed.

Lemma fails_with_Ok {A} (a : A) (k : failure_kind) : ¬ fails_with (Ok a) k.
Proof. by intros (e & ? & ?). Qed.

Lemma fails_with_Raise {A} (e : exn) (k : failure_kind) :
  fails_with (@Raise A e) k ↔ kind_of e = Some k.
Proof.
  split.
  - by intros (e' & [= <-] & ?).
  - intros. by exists e.
Qed.

Lemma perm_five {A : Type} (x1 x2 x3 x4 x5 : A) :
  [x1; x4; x3; x5; x2] ≡ₚ [x1; x2; x3; x4; x5].
Proof.
  constructor.
  change ([x4; x3; x5; x2] ≡ₚ [x2; x3] ++ x4 :: [x5]).
  apply Permutation_cons_app. cbn [app].
  change ([x3; x5; x2] ≡ₚ [x2] ++ x3 :: [x5]).
  apply Permutation_cons_app. apply perm_swap.
Qed.

Lemma nil_or_not {A : Type} (l : list A) : l = [] ∨ l ≠ [].
Proof. destruct l; [by left|by right]. Qed.

(** ** Sorting *)

Section sorting_facts.
Context {A : Type} (R : relation A) `{!RelDecision R}.

Lemma insert_sorted_Permutation (x : A) (l : list A) :
  insert_sorted R x l ≡ₚ x :: l.
Proof.
  induction l as [|y l IH]; [done|]. cbn [insert_sorted].
  case_decide; [done|]. rewrite IH. apply perm_swap.
Qed.

Lemma stable_sort_Permutation (l : list A) : stable_sort R l ≡ₚ l.
Proof.
  induction l as [|x l IH]; [done|]. cbn [stable_sort foldr].
  rewrite insert_sorted_Permutation. by constructor.
Qed.

Lemma StronglySorted_insert_sorted `{!Total R, !Transitive R} (x : A) (l : list A) :
  StronglySorted R l → StronglySorted R (insert_sorted R x l).
Proof.
  intros Hs. induction Hs as [|y l Hl IH Hy]; cbn [insert_sorted].
  - repeat constructor.
  - case_decide as Hxy.
    + constructor; [by constructor|]. constructor; [done|].
      eapply Forall_impl; [exact Hy|]. intros z Hz. by trans y.
    + constructor; [done|]. rewrite insert_sorted_Permutation.
      constructor; [|done]. by destruct (total R x y).
Qed.

Lemma StronglySorted_stable_sort `{!Total R, !Transitive R} (l : list A) :
  StronglySorted R (stable_sort R l).
Proof.
  induction l as [|x l IH]; [constructor|]. cbn [stable_sort foldr].
  by apply StronglySorted_insert_sorted.
Qed.

(** A sorted list is left as it is. *)
Lemma stable_sort_sorted (l : list A) :
  StronglySorted R l → stable_sort R l = l.
Proof.
  intros Hs. induction Hs as [|x l Hl IH Hx]; [done|].
  cbn [stable_sort foldr]. fold (stable_sort R l). rewrite IH.
  destruct l as [|y l]; [done|]. cbn [insert_sorted].
  apply Forall_cons in Hx as [Hxy _]. by rewrite decide_True.
Qed.

End sorting_facts.

(** ** Frames *)

Section frame_facts.
Context {F : Type}.
Implicit Types df : list (date * F).

Lemma iloc_first_head df r : head df = Some r → iloc_first df = Ok r.2.
Proof. by destruct df; intros [= ->]. Qed.

Lemma index_first_head df r : head df = Some r → index_first df = Ok r.1.
Proof. by destruct df; intros [= ->]. Qed.

Lemma iloc_last_last df r : last df = Some r → iloc_last df = Ok r.2.
Proof. unfold iloc_last. by intros ->. Qed.

Lemma index_last_last df r : last df = Some r → index_last df = Ok r.1.
Proof. unfold index_last. by intros ->. Qed.

Lemma index_first_Ok df d : index_first df = Ok d → ∃ r, head df = Some r ∧ r.1 = d.
Proof. destruct df as [|r ?]; [done|]. intros [= <-]. by exists r. Qed.

Lemma index_last_Ok df d : index_last df = Ok d → ∃ r, last df = Some r ∧ r.1 = d.
Proof.
  unfold index_last. destruct (last df) as [r|]; [|done].
  intros [= <-]. by exists r.
Qed.

Lemma nonempty_head_last df : df ≠ [] → ∃ r1 r2, head df = Some r1 ∧ last df = Some r2.
Proof.
  intros Hne. destruct df as [|r df]; [done|].
  exists r. destruct (last (r :: df)) as [r2|] eqn:Hl; [by eauto|].
  by apply last_None in Hl.
Qed.

Global Instance index_le_total : Total (@index_le F).
Proof. intros a b. unfold index_le. lia. Qed.

Global Instance index_le_trans : Transitive (@index_le F).
Proof. intros a b c. unfold index_le. lia. Qed.

Lemma sort_index_perm df : sort_index df ≡ₚ df.
Proof. apply stable_sort_Permutation. Qed.

Lemma sort_index_sorted df : StronglySorted index_le (sort_index df).
Proof. apply StronglySorted_stable_sort; apply _. Qed.

Lemma sort_index_length df : length (sort_index df) = length df.
Proof. apply Permutation_length, sort_index_perm. Qed.

(** A frame whose dates strictly increase is left as it is. *)
Lemma sort_index_increasing df :
  StronglySorted (λ a b, a.1 < b.1) df → sort_index df = df.
Proof.
  intros Hs. apply (StronglySorted_unique_strong index_le).
  - intros x1 x2 Hx1 Hx2 H12 H21.
    apply (elem_of_Permutation_proper _ _ _ (sort_index_perm df)) in Hx1.
    assert (x1.1 = x2.1) as Heq by (unfold index_le in *; lia).
    clear H12 H21. induction Hs as [|a l Hl IH Ha]; [by apply elem_of_nil in Hx1|].
    apply elem_of_cons in Hx1 as [->|Hx1], Hx2 as [->|Hx2]; [done|..].
    + rewrite Forall_forall in Ha. specialize (Ha _ Hx2). lia.
    + rewrite Forall_forall in Ha. specialize (Ha _ Hx1). lia.
    + by apply IH.
  - apply sort_index_sorted.
  - clear -Hs. induction Hs as [|a l Hl IH Ha]; constructor; [done|].
    eapply Forall_impl; [done|]. intros b. unfold index_le. simpl. lia.
  - apply sort_index_perm.
Qed.


End frame_facts.

(** ** [cagr] *)

Section cagr_facts.
Context `{Arith F}.
Local Open Scope arith_scope.
Implicit Types df : list (date * F).

(** [cagr] on a frame with a first and a last row. *)
Lemma cagr_unfold df r1 r2 :
  head df = Some r1 → last df = Some r2 →
  cagr df =
    let num_years := of_Z (r2.1 - r1.1) / of_Z 365 in
    if (r1.2 <=? zero) || (num_years <=? zero)
    then Raise InvalidCagrData
    else Ok (round ((r2.2 / r1.2) ** (one / num_years) - one) 3).
Proof.
  intros Hh Hl. unfold cagr.
  rewrite (iloc_first_head _ _ Hh), (iloc_last_last _ _ Hl),
    (index_last_last _ _ Hl), (index_first_head _ _ Hh).
  done.
Qed.

Lemma cagr_empty : cagr ([] : list (date * F)) = Raise IndexError.
Proof. done. Qed.

(** The only exceptions of [cagr]. *)
Lemma cagr_Raise df e : cagr df = Raise e → e = InvalidCagrData ∨ (e = IndexError ∧ df = []).
Proof.
  destruct (decide (df = [])) as [->|Hne].
  - rewrite cagr_empty. intros [= <-]. by right.
  - destruct (nonempty_head_last df Hne) as (r1 & r2 & Hh & Hl).
    rewrite (cagr_unfold _ _ _ Hh Hl). simpl.
    case_match; [|done]. intros [= <-]. by left.
Qed.

(** C1: on a non-empty series, [cagr] takes the elapsed years to be the days
    from the first to the last index date over 365; it fails with
    InvalidInput exactly when the first value is at most 0 or the elapsed
    years are at most 0, and otherwise returns
    [(end_value / start_value) ** (1 / years) - 1] rounded to 3 decimals.
    (The code does not look at the order of the dates in between.) *)
Theorem cagr_formula df :
  df ≠ [] →
  ∃ first_row last_row,
    head df = Some first_row ∧ last df = Some last_row ∧
    let years := of_Z (last_row.1 - first_row.1) / of_Z 365 in
    let invalid := (first_row.2 <=? zero) = true ∨ (years <=? zero) = true in
    (fails_with (cagr df) InvalidInput ↔ invalid) ∧
    (¬ invalid →
     cagr df = Ok (round ((last_row.2 / first_row.2) ** (one / years) - one) 3)).
Proof.
  intros Hne. destruct (nonempty_head_last df Hne) as (r1 & r2 & Hh & Hl).
  exists r1, r2. do 2 (split; [done|]). cbv zeta.
  rewrite (cagr_unfold _ _ _ Hh Hl). cbv zeta.
  destruct (r1.2 <=? zero), (of_Z (r2.1 - r1.1) / of_Z 365 <=? zero); simpl;
    rewrite ?fails_with_Raise; (split; [|intuition congruence]);
    try (simpl; tauto).
  split; [by intros ?%fails_with_Ok|intuition congruence].
Qed.

End cagr_facts.

(** ** [calculate_trailing_cagr] *)

Lemma pretty_N_go_plain (x : N) (s : string) :
  starts_plain s → starts_plain (pretty_N_go x s).
Proof.
  revert s. induction (N.lt_wf_0 x) as [x _ IH]; intros s Hs.
  destruct (decide (x = 0)%N) as [->|Hx]; [by rewrite pretty_N_go_0|].
  rewrite pretty_N_go_step by lia. apply IH; [apply N.div_lt; lia|].
  simpl. unfold pretty_N_char. by repeat case_match.
Qed.

Lemma pretty_Z_plain (z : Z) : starts_plain (pretty z).
Proof.
  assert (∀ p : positive, starts_plain (pretty p)) as Hp.
  { intros p. unfold pretty, pretty_positive, pretty, pretty_N.
    case_decide; [done|]. rewrite pretty_N_go_step by lia.
    apply pretty_N_go_plain. simpl. unfold pretty_N_char. by repeat case_match. }
  destruct z as [|p|p]; unfold pretty, pretty_Z; [done|apply Hp|done].
Qed.

Lemma string_app_length (s t : string) :
  String.length (s +:+ t) = (String.length s + String.length t)%nat.
Proof. induction s as [|a s IH]; simpl; [done|]. by rewrite IH. Qed.

Lemma string_app_inj_r (s1 s2 t : string) : s1 +:+ t = s2 +:+ t → s1 = s2.
Proof.
  revert s2. induction s1 as [|a s1 IH]; intros [|b s2] Heq; simpl in *.
  - done.
  - apply (f_equal String.length) in Heq. simpl in Heq.
    rewrite !string_app_length in Heq. simpl in Heq. lia.
  - apply (f_equal String.length) in Heq. simpl in Heq.
    rewrite !string_app_length in Heq. simpl in Heq. lia.
  - injection Heq as -> Heq. f_equal. by apply IH.
Qed.

Lemma period_key_inj (w1 w2 : Z) : period_key w1 = period_key w2 → w1 = w2.
Proof. unfold period_key. intros Heq%string_app_inj_r. by apply (inj pretty). Qed.

Lemma period_key_not_Max (w : Z) : period_key w ≠ "Max_CAGR".
Proof.
  unfold period_key. pose proof (pretty_Z_plain w) as Hp.
  destruct (pretty w) as [|a s]; [done|]. simpl in *. by intros [= -> _].
Qed.

Section trailing_facts.
Context `{Arith F}.
Local Open Scope arith_scope.
Implicit Types df : list (date * F).
Implicit Types m : gmap string (option F).

Lemma window_key_other (w : Z) : w ≠ (-1)%Z → window_key w = period_key w.
Proof. intros. unfold window_key. by rewrite bool_decide_eq_false_2. Qed.

Lemma window_entry_other df (w : Z) :
  w ≠ (-1)%Z →
  window_entry df w =
    index_last df ≫= λ last_date,
    index_first df ≫= λ first_date,
    if bool_decide (date_sub last_date (years_offset w) < first_date)%Z
    then Ok None
    else Some <$> cagr (loc_from df (date_sub last_date (years_offset w))).
Proof. intros. unfold window_entry. by rewrite bool_decide_eq_false_2. Qed.

Lemma window_key_inj (w1 w2 : Z) : window_key w1 = window_key w2 → w1 = w2.
Proof.
  unfold window_key. repeat case_bool_decide; subst; try done.
  - intros Heq. symmetry in Heq. by apply period_key_not_Max in Heq.
  - intros Heq. by apply period_key_not_Max in Heq.
  - apply period_key_inj.
Qed.

Lemma trailing_loop_cons df (w : Z) (ps : list Z) m :
  trailing_loop df (w :: ps) m =
    window_entry df w ≫= λ e, trailing_loop df ps (<[window_key w := e]> m).
Proof.
  unfold window_entry, window_key. cbn [trailing_loop].
  destruct (bool_decide (w = (-1)%Z)).
  - destruct (cagr df); reflexivity.
  - destruct (index_last df) as [l|]; [|reflexivity].
    destruct (index_first df) as [f|]; [|reflexivity].
    cbn [mbind result_bind].
    destruct (bool_decide _); [reflexivity|].
    destruct (cagr _); reflexivity.
Qed.

(** What the loop leaves under each key. *)
Lemma trailing_loop_lookup df (ps : list Z) m0 m :
  trailing_loop df ps m0 = Ok m →
  (∀ w, w ∈ ps → ∃ e, window_entry df w = Ok e ∧ m !! window_key w = Some e)
  ∧ (∀ k, (∀ w, w ∈ ps → window_key w ≠ k) → m !! k = m0 !! k).
Proof.
  revert m0. induction ps as [|w ps IH]; intros m0 Hrun.
  - injection Hrun as <-. split; [|done]. intros w Hw. by apply elem_of_nil in Hw.
  - rewrite trailing_loop_cons in Hrun.
    apply bind_Ok in Hrun as (e & He & Hrun).
    destruct (IH _ Hrun) as [IH1 IH2]. split.
    + intros w' Hw'. destruct (decide (w' ∈ ps)) as [Hin|Hnin]; [by apply IH1|].
      apply elem_of_cons in Hw' as [->|?]; [|done].
      exists e. split; [done|]. rewrite IH2.
      * apply lookup_insert_eq.
      * intros w'' Hw'' Heq. apply window_key_inj in Heq. by subst.
    + intros k Hk. rewrite IH2.
      * apply lookup_insert_ne. apply Hk, elem_of_cons; by left.
      * intros w' Hw'. apply Hk, elem_of_cons; by right.
Qed.

(** The [-1] window alone is [cagr] of the sorted series. *)
Lemma trailing_Max_only df :
  calculate_trailing_cagr df [(-1)%Z] =
    (λ v, {["Max_CAGR" := Some v]}) <$> cagr (sort_index df).
Proof.
  unfold calculate_trailing_cagr. cbn [trailing_loop].
  rewrite bool_decide_eq_true_2 by done.
  destruct (cagr (sort_index df)); reflexivity.
Qed.

Lemma trailing_Max_entry df (ps : list Z) m :
  calculate_trailing_cagr df ps = Ok m → (-1)%Z ∈ ps →
  ∃ v, cagr (sort_index df) = Ok v ∧ m !! "Max_CAGR" = Some (Some v).
Proof.
  intros Hrun Hin. apply trailing_loop_lookup in Hrun as [Hrun _].
  destruct (Hrun _ Hin) as (e & He & Hm).
  unfold window_entry, window_key in *. rewrite bool_decide_eq_true_2 in * by done.
  destruct (cagr (sort_index df)) as [v|]; [|done].
  injection He as <-. by exists v.
Qed.

(** C4 (as amended): when [calculate_trailing_cagr] with windows [[1; -1]]
    returns, its ["Max_CAGR"] entry is [cagr] of the series sorted by date,
    and that is [cagr] of the series itself when its dates strictly
    increase. *)
Theorem trailing_Max_is_cagr df m :
  calculate_trailing_cagr df [1%Z; (-1)%Z] = Ok m →
  ∃ v, m !! "Max_CAGR" = Some (Some v)
       ∧ cagr (sort_index df) = Ok v
       ∧ (StronglySorted (λ a b, a.1 < b.1)%Z df → cagr df = Ok v).
Proof.
  intros Hrun. destruct (trailing_Max_entry df _ m Hrun) as (v & Hv & Hm).
  { set_solver. }
  exists v. split_and!; [done..|]. intros Hs. by rewrite <-(sort_index_increasing df Hs).
Qed.

(** C6 (as amended): the [-1] window alone yields [cagr] of the whole
    sorted series under ["Max_CAGR"], and fails when that [cagr] fails; and
    whenever [calculate_trailing_cagr] returns, the entry of a requested
    positive window [w] is absent exactly when the last date minus [w]
    years precedes the first date, and a requested [-1] window holds
    [cagr] of the whole sorted series. *)
Theorem trailing_windows df :
  calculate_trailing_cagr df [(-1)%Z] =
    (λ v, {["Max_CAGR" := Some v]}) <$> cagr (sort_index df)
  ∧ ∀ (ps : list Z) m,
      calculate_trailing_cagr df ps = Ok m →
      (∀ w, w ∈ ps → (0 < w)%Z →
         ∃ first_date last_date,
           index_first (sort_index df) = Ok first_date
           ∧ index_last (sort_index df) = Ok last_date
           ∧ (m !! period_key w = Some None
              ↔ (date_sub last_date (years_offset w) < first_date)%Z))
      ∧ ((-1)%Z ∈ ps →
         ∃ v, cagr (sort_index df) = Ok v ∧ m !! "Max_CAGR" = Some (Some v)).
Proof.
  split; [apply trailing_Max_only|]. intros ps m Hrun.
  split; [|by apply trailing_Max_entry].
  intros w Hin Hpos. apply trailing_loop_lookup in Hrun as [Hrun _].
  destruct (Hrun _ Hin) as (e & He & Hm).
  rewrite window_key_other in Hm by lia.
  rewrite window_entry_other in He by lia.
  apply bind_Ok in He as (l & Hl & He). apply bind_Ok in He as (f & Hf & He).
  exists f, l. do 2 (split; [assumption|]). rewrite Hm.
  destruct (bool_decide_reflect (date_sub l (years_offset w) < f)%Z) as [Hlt|Hge].
  - injection He as <-. by split.
  - destruct (cagr (loc_from _ _)) as [v|]; cbn [fmap result_fmap] in He;
      [|discriminate He].
    injection He as <-. split; [intros [=]|intros ?; contradiction].
Qed.

End trailing_facts.

(** ** [calculate_rolling_returns] *)

Section rolling_facts.
Context `{Arith F}.
Local Open Scope arith_scope.
Implicit Types df : list (date * F).

Lemma asof_backward_Some df (key : date) (r : date * F) :
  asof_backward df key = Some r → r ∈ df ∧ (r.1 ≤ key)%Z.
Proof.
  unfold asof_backward. intros Hl%last_Some_elem_of.
  apply list_elem_of_filter in Hl as [? ?]. done.
Qed.

Lemma asof_forward_Some df (key : date) (r : date * F) :
  asof_forward df key = Some r → r ∈ df ∧ (key ≤ r.1)%Z.
Proof.
  unfold asof_forward. intros Hh%head_Some_elem_of.
  apply list_elem_of_filter in Hh as [? ?]. done.
Qed.

(** [merge_past] on a frame with at least one row. *)
Lemma merge_past_cons df period :
  df ≠ [] →
  merge_past df period =
    let left := map (λ r, (r.1, r.2, date_sub r.1 period)) df in
    if negb (keys_sorted (map snd left)) then Raise KeysNotSorted
    else if negb (keys_sorted (map fst df)) then Raise KeysNotSorted
    else Ok (map (λ l, mkRollingRow l.1.1 l.1.2 l.2 (asof_backward df l.2)) left).
Proof. intros Hne. by destruct df. Qed.

Lemma merge_past_nonempty df period rows :
  merge_past df period = Ok rows → df ≠ [].
Proof. intros Hrows ->. discriminate Hrows. Qed.

(** The rows [merge_past] returns: the keys were sorted, and each row pairs
    a row of the frame with the match of its offset date. *)
Lemma merge_past_Ok df period rows :
  merge_past df period = Ok rows →
  Sorted Z.le (map fst df)
  ∧ ∀ r, r ∈ rows →
      (row_name r, nav_current r) ∈ df
      ∧ past_date r = date_sub (row_name r) period
      ∧ row_match r = asof_backward df (past_date r).
Proof.
  intros Hrows. pose proof (merge_past_nonempty _ _ _ Hrows) as Hne.
  rewrite (merge_past_cons _ _ Hne) in Hrows. revert Hrows. cbv zeta.
  destruct (keys_sorted (map snd _)); [|done].
  destruct (keys_sorted (map fst df)) eqn:Hs; [|done]. cbn [negb].
  intros [= <-]. split.
  - unfold keys_sorted in Hs. by apply bool_decide_eq_true in Hs.
  - intros r Hr. apply list_elem_of_fmap in Hr as (l & -> & Hl).
    apply list_elem_of_fmap in Hl as ([d v] & -> & Hd).
    cbn [row_name nav_current past_date row_match fst snd].
    split; [exact Hd|]. split; reflexivity.
Qed.


Lemma loc_row_elem (rows : list (returns_row F)) (label : date) (rr : returns_row F) :
  loc_row rows label = Ok rr → rr ∈ rows.
Proof.
  unfold loc_row. destruct (filter _ rows) as [|r [|??]] eqn:Hf; try done.
  intros [= <-].
  assert (r ∈ filter (λ r, ret_name r = label) rows) as Hin.
  { rewrite Hf. apply elem_of_cons. by left. }
  by apply list_elem_of_filter in Hin as [_ ?].
Qed.


End rolling_facts.

(** ** [calculate_sip_returns] *)

Section sip_facts.
Context `{Arith F}.
Local Open Scope arith_scope.
Implicit Types sip nav : list (date * F).

Lemma merge_forward_amounts sip nav :
  map amount (merge_forward sip nav) = map snd sip.
Proof.
  unfold merge_forward. induction sip as [|c sip IH]; [done|].
  cbn [map]. by rewrite IH.
Qed.

Lemma merge_forward_units sip nav :
  omap id (map units (merge_forward sip nav)) =
  omap (λ c, (λ m, c.2 / m.2) <$> asof_forward nav c.1) sip.
Proof.
  unfold merge_forward. induction sip as [|c sip IH]; [done|].
  cbn [map omap list_omap]. fold (omap (M:=list) (@id (option F))).
  unfold units at 1. cbn [matched_nav amount id].
  destruct (asof_forward nav c.1) as [m|]; cbn [fmap option_fmap option_map];
    by rewrite IH.
Qed.

(** What a successful call returns. *)
Lemma calculate_sip_returns_Ok sip nav r :
  calculate_sip_returns sip nav = Ok r →
  ∃ nav_last ann,
    iloc_last (sort_index nav) = Ok nav_last
    ∧ sip_annualized sip nav = Ok ann
    ∧ total_invested r = round (sip_invested sip nav) 2
    ∧ total_units r = round (sip_units sip nav) 4
    ∧ current_value r = round (sip_units sip nav * nav_last) 2
    ∧ annualized_return r = round_or_zero ann 2.
Proof.
  unfold calculate_sip_returns. cbv zeta. intros Hrun.
  apply bind_Ok in Hrun as (nav_last & Hnav & Hrun).
  apply bind_Ok in Hrun as (ann & Hann & Hrun).
  apply bind_Ok in Hrun as (days & _ & Hrun).
  injection Hrun as <-. exists nav_last, ann.
  split_and!; try done.
  unfold sip_annualized. rewrite <-Hann.
  assert (default zero (snd <$> last (sort_index nav)) = nav_last) as ->.
  { unfold iloc_last in Hnav. destruct (last (sort_index nav)); [|done].
    by injection Hnav as <-. }
  case_bool_decide; [|done].
  destruct (index_last (sort_index nav)); [|done].
  by destruct (index_first (sort_index sip)).
Qed.

(** C2 (as amended): [total_invested] is the sum of the amounts of all the
    contributions, matched to a NAV or not, rounded to 2 decimals; only
    [total_units] leaves out the contributions with no NAV at or after
    their date. *)
Theorem sip_total_invested_all sip nav r :
  calculate_sip_returns sip nav = Ok r →
  total_invested r = round (series_sum (map snd (sort_index sip))) 2
  ∧ total_units r =
      round (series_sum
               (omap (λ c, (λ m, c.2 / m.2) <$> asof_forward (sort_index nav) c.1)
                  (sort_index sip))) 4.
Proof.
  intros (nav_last & ann & _ & _ & Hinv & Hunits & _)%calculate_sip_returns_Ok.
  rewrite Hinv, Hunits. unfold sip_invested, sip_units, series_sum_skipna.
  by rewrite merge_forward_amounts, merge_forward_units.
Qed.

(** C8 (as amended): with at least two contributions the reported
    annualized return is
    [((current_value / total_invested) ** (1 / years) - 1) * 100] rounded
    to 2 decimals, for [years] the days from the first contribution date
    to the last NAV date over 365.25, when [years > 0] and
    [total_invested > 0], and [0] otherwise; with fewer than two
    contributions it is [0]. *)
Theorem sip_annualized_return sip nav r :
  calculate_sip_returns sip nav = Ok r →
  ((length sip ≤ 1)%nat → annualized_return r = zero)
  ∧ ((1 < length sip)%nat →
     ∃ first_date last_date nav_last,
       index_first (sort_index sip) = Ok first_date
       ∧ index_last (sort_index nav) = Ok last_date
       ∧ iloc_last (sort_index nav) = Ok nav_last
       ∧ let years := of_Z (last_date - first_date) / lit (36525 # 100) in
         let invested := sip_invested sip nav in
         let value := sip_units sip nav * nav_last in
         annualized_return r =
           if (zero <? years) && (zero <? invested)
           then round (((value / invested) ** (one / years) - one) * of_Z 100) 2
           else zero).
Proof.
  intros (nav_last & ann & Hnav & Hann & _ & _ & _ & Hr)%calculate_sip_returns_Ok.
  unfold sip_annualized in Hann. rewrite sort_index_length in Hann. split.
  - intros Hlen. rewrite bool_decide_eq_false_2 in Hann by lia.
    injection Hann as <-. by rewrite Hr.
  - intros Hlen. rewrite bool_decide_eq_true_2 in Hann by lia.
    apply bind_Ok in Hann as (last_date & Hlast & Hann).
    apply bind_Ok in Hann as (first_date & Hfirst & Hann).
    exists first_date, last_date, nav_last. split_and!; [done..|].
    cbv zeta in *.
    assert (default zero (snd <$> last (sort_index nav)) = nav_last) as Hdef.
    { unfold iloc_last in Hnav. destruct (last (sort_index nav)); [|done].
      by injection Hnav as <-. }
    rewrite Hdef in Hann. rewrite Hr.
    destruct (_ && _); by injection Hann as <-.
Qed.

(** C10: a contribution series with exactly one entry yields an annualized
    return of [0] (on any non-empty NAV series, where the call returns),
    whatever the elapsed time and the amount invested. *)
Theorem sip_single_contribution sip nav :
  length sip = 1%nat → nav ≠ [] →
  ∃ r, calculate_sip_returns sip nav = Ok r ∧ annualized_return r = zero.
Proof.
  intros Hlen Hnav.
  assert (sort_index nav ≠ []) as Hnav'.
  { intros Heq. apply Hnav, length_zero_iff_nil.
    by rewrite <-sort_index_length, Heq. }
  assert (sort_index sip ≠ []) as Hsip'.
  { intros Heq. pose proof (sort_index_length sip) as Hl.
    rewrite Heq in Hl. simpl in Hl. lia. }
  destruct (nonempty_head_last _ Hnav') as (n1 & n2 & _ & Hn2).
  destruct (nonempty_head_last _ Hsip') as (s1 & s2 & Hs1 & _).
  unfold calculate_sip_returns. cbv zeta.
  rewrite (iloc_last_last _ _ Hn2), (index_last_last _ _ Hn2),
    (index_first_head _ _ Hs1), sort_index_length, Hlen.
  eexists. split; [reflexivity|]. reflexivity.
Qed.

End sip_facts.

(** ** [xirr] *)

Global Instance Q_arith_laws : ArithLaws Q.
Proof.
  split; unfold add, Q_arith, QExact.qadd.
  - intros x y. apply Qred_complete, Qplus_comm.
  - intros x y z. apply Qred_complete.
    rewrite !Qred_correct. apply Qplus_assoc.
Qed.

Section xirr_facts.
Context `{Arith F}.
Local Open Scope arith_scope.
Implicit Types flows : list (F * Z).
Implicit Types cashflows : list F.
Implicit Types dates : list date.

Lemma py_div_Raise (x y : F) e : py_div x y = Raise e → e = ZeroDivisionError.
Proof. unfold py_div. case_match; [by intros [= <-]|done]. Qed.

Lemma py_pow_Raise (x y : F) e : py_pow x y = Raise e → e = ZeroDivisionError.
Proof. unfold py_pow. case_match; [by intros [= <-]|done]. Qed.

Lemma npv_term_Raise rate cf (day : Z) e :
  npv_term rate cf day = Raise e → e = ZeroDivisionError.
Proof.
  unfold npv_term. intros [Hp|(p & _ & Hd)]%bind_Raise.
  - by apply py_pow_Raise in Hp.
  - by apply py_div_Raise in Hd.
Qed.

Lemma dnpv_term_Raise rate cf (day : Z) e :
  dnpv_term rate cf day = Raise e → e = ZeroDivisionError.
Proof.
  unfold dnpv_term. intros [Hp|(p & _ & Hd)]%bind_Raise.
  - by apply py_pow_Raise in Hp.
  - by apply py_div_Raise in Hd.
Qed.

Lemma sum_terms_Raise (term : F → Z → result F) flows acc e :
  (∀ cf day e', term cf day = Raise e' → e' = ZeroDivisionError) →
  sum_terms term flows acc = Raise e → e = ZeroDivisionError.
Proof.
  intros Hterm. revert acc. induction flows as [|[cf day] flows IH]; intros acc; [done|].
  cbn [sum_terms]. intros [Ht|(t & _ & Hrest)]%bind_Raise.
  - by apply Hterm in Ht.
  - by apply IH in Hrest.
Qed.

(** The exceptions of one pass. *)
Lemma newton_step_Raise flows tolerance rate e :
  newton_step flows tolerance rate = Raise e →
  e = DerivativeTooSmall ∨ e = RateOutOfBounds ∨ e = ZeroDivisionError.
Proof.
  unfold newton_step. intros [Hn|(npv & _ & Hrest)]%bind_Raise.
  { apply sum_terms_Raise in Hn; [auto|]. apply npv_term_Raise. }
  apply bind_Raise in Hrest as [Hd|(dnpv & _ & Hrest)].
  { apply sum_terms_Raise in Hd; [auto|]. apply dnpv_term_Raise. }
  destruct (abs npv <? tolerance); [done|].
  destruct (abs dnpv <? _); [injection Hrest as <-; auto|].
  apply bind_Raise in Hrest as [Hs|(step & _ & Hrest)].
  { apply py_div_Raise in Hs. auto. }
  destruct (_ || _); [injection Hrest as <-; auto|done].
Qed.

(** The loop makes at most [n] passes. *)
Lemma newton_loop_passes flows max_iterations tolerance (n : nat) rate :
  (length (newton_loop flows max_iterations tolerance n rate).2 ≤ n)%nat.
Proof.
  revert rate. induction n as [|n IH]; intros rate; cbn [newton_loop]; [done|].
  destruct (newton_step flows tolerance rate) as [[r|rate']|e]; cbn; try lia.
  specialize (IH rate').
  destruct (newton_loop flows max_iterations tolerance n rate') as [r visited].
  cbn in *. lia.
Qed.

(** The exceptions of the loop. *)
Lemma newton_loop_Raise flows max_iterations tolerance (n : nat) rate e :
  (newton_loop flows max_iterations tolerance n rate).1 = Raise e →
  e = DerivativeTooSmall ∨ e = RateOutOfBounds ∨ e = ZeroDivisionError
  ∨ e = DidNotConverge max_iterations.
Proof.
  revert rate. induction n as [|n IH]; intros rate; cbn [newton_loop].
  { intros [= <-]. auto. }
  destruct (newton_step flows tolerance rate) as [[r|rate']|e'] eqn:Hstep; cbn.
  - done.
  - specialize (IH rate').
    destruct (newton_loop flows max_iterations tolerance n rate') as [r visited].
    exact IH.
  - intros [= <-]. apply newton_step_Raise in Hstep. tauto.
Qed.


End xirr_facts.

Section xirr_runs.
Context `{Arith F}.
Local Open Scope arith_scope.
Implicit Types flows : list (F * Z).



(** C7: [xirr] fails with InvalidInput exactly when it is given fewer than
    2 cash flows or lists of different lengths, and then no pass of the
    solver was made. *)
Theorem xirr_invalid_input (cashflows : list F) (dates : list date)
    (guess : F) (max_iterations : Z) (tolerance : F) :
  (fails_with (xirr cashflows dates guess max_iterations tolerance) InvalidInput
   ↔ (length cashflows < 2)%nat ∨ length cashflows ≠ length dates)
  ∧ ((length cashflows < 2)%nat ∨ length cashflows ≠ length dates →
     (xirr_run cashflows dates guess max_iterations tolerance).2 = []).
Proof.
  unfold xirr, xirr_run.
  destruct (bool_decide_reflect (length cashflows ≠ length dates)) as [Hne|Heq].
  { cbn. rewrite fails_with_Raise. cbn. split; [|done]. split; [by right|done]. }
  destruct (bool_decide_reflect (length cashflows < 2)%nat) as [Hlt|Hge].
  { cbn. rewrite fails_with_Raise. cbn. split; [|done]. split; [by left|done]. }
  split; [|tauto]. split; [|tauto].
  intros (e & He & Hk). apply newton_loop_Raise in He.
  destruct He as [-> | [-> | [-> | ->]]]; discriminate Hk.
Qed.

End xirr_runs.

(** ** [xirr] and the order of its input *)

Global Instance key_le_total : Total key_le.
Proof. intros a b. unfold key_le. lia. Qed.

Global Instance key_le_trans : Transitive key_le.
Proof. intros a b c. unfold key_le. lia. Qed.

Lemma argsort_perm (dates : list date) : argsort dates ≡ₚ seq 0 (length dates).
Proof.
  unfold argsort.
  rewrite (fmap_Permutation fst _ _ (stable_sort_Permutation key_le _)).
  by rewrite fst_zip by (rewrite length_seq; lia).
Qed.

(** The dates picked in the order of [argsort] are sorted. *)
Lemma argsort_sorted (dates : list date) :
  Sorted Z.le (map (λ i, nth i dates 0) (argsort dates)).
Proof.
  unfold argsort.
  set (l := stable_sort key_le (zip (seq 0 (length dates)) dates)).
  assert (map (λ i, nth i dates 0) (map fst l) = map snd l) as ->.
  { rewrite map_map. apply map_ext_in. intros [i d] Hin.
    apply list_elem_of_In in Hin. unfold l in Hin.
    rewrite stable_sort_Permutation in Hin.
    apply list_elem_of_lookup in Hin as [j Hj].
    apply lookup_zip_with_Some in Hj as (i' & d' & [= <- <-] & Hi & Hd).
    apply lookup_seq in Hi as [-> _]. cbn. by apply nth_lookup_Some. }
  apply (Sorted_fmap snd key_le Z.le); [done|].
  apply StronglySorted_Sorted, StronglySorted_stable_sort; apply _.
Qed.

Section xirr_order.
Context `{ArithLaws F}.
Local Open Scope arith_scope.
Implicit Types flows pairs : list (F * Z).

Lemma sorted_flows_pairs (cashflows : list F) (dates : list date) :
  sorted_flows cashflows dates = shift_days (sorted_pairs cashflows dates).
Proof.
  unfold sorted_flows, shift_days, sorted_pairs. cbv zeta.
  rewrite !map_map. cbn [fst snd].
  generalize (nth 0 (map (λ i, nth i dates 0%Z) (argsort dates)) 0%Z).
  intros s. induction (argsort dates) as [|i idx IH]; [done|].
  cbn. by rewrite <-IH.
Qed.

Lemma pairs_of_seq (cashflows : list F) (dates : list date) :
  length cashflows = length dates →
  map (λ i, (nth i cashflows zero, nth i dates 0%Z)) (seq 0 (length dates))
  = zip cashflows dates.
Proof.
  revert dates. induction cashflows as [|cf cashflows IH]; intros [|d dates] Hlen;
    try done.
  cbn [length seq map zip zip_with nth]. f_equal.
  rewrite <-seq_shift, map_map. cbn [nth]. apply IH. cbn in Hlen. lia.
Qed.

Lemma sorted_pairs_perm (cashflows : list F) (dates : list date) :
  length cashflows = length dates →
  sorted_pairs cashflows dates ≡ₚ zip cashflows dates.
Proof.
  intros Hlen. unfold sorted_pairs.
  rewrite <-(pairs_of_seq _ _ Hlen).
  apply Permutation_map, argsort_perm.
Qed.

Lemma sorted_pairs_sorted (cashflows : list F) (dates : list date) :
  Sorted Z.le (map snd (sorted_pairs cashflows dates)).
Proof.
  unfold sorted_pairs. rewrite map_map. cbn [snd]. apply argsort_sorted.
Qed.

(** Two date-sorted arrangements of the same pairs give the same flows, up
    to their order. *)
Lemma shift_days_perm pairs1 pairs2 :
  pairs1 ≡ₚ pairs2 →
  Sorted Z.le (map snd pairs1) → Sorted Z.le (map snd pairs2) →
  shift_days pairs1 ≡ₚ shift_days pairs2.
Proof.
  intros Hperm Hs1 Hs2. unfold shift_days.
  assert (map snd pairs1 = map snd pairs2) as ->.
  { apply (Sorted_unique Z.le); [done..|]. by apply Permutation_map. }
  by apply Permutation_map.
Qed.

(** A sum of terms that can fail only in one way does not depend on the
    order of the terms. *)
Lemma sum_terms_perm (term : F → Z → result F) flows1 flows2 acc :
  (∀ cf day e, term cf day = Raise e → e = ZeroDivisionError) →
  flows1 ≡ₚ flows2 →
  sum_terms term flows1 acc = sum_terms term flows2 acc.
Proof.
  intros Hterm Hperm. revert acc.
  induction Hperm as [|[cf day] l1 l2 _ IH|[cf1 day1] [cf2 day2] l|l1 l2 l3 _ IH1 _ IH2];
    intros acc.
  - done.
  - cbn [sum_terms]. destruct (term cf day); cbn; [apply IH|done].
  - cbn [sum_terms].
    destruct (term cf1 day1) as [t1|e1] eqn:H1, (term cf2 day2) as [t2|e2] eqn:H2;
      cbn; rewrite ?H1, ?H2; cbn; try done.
    + by rewrite <-!add_assoc, (add_comm t2 t1).
    + apply Hterm in H1, H2. by subst.
  - by rewrite IH1, IH2.
Qed.

Lemma newton_step_perm flows1 flows2 tolerance rate :
  flows1 ≡ₚ flows2 →
  newton_step flows1 tolerance rate = newton_step flows2 tolerance rate.
Proof.
  intros Hperm. unfold newton_step, npv_at, dnpv_at.
  rewrite (sum_terms_perm (npv_term rate) flows1 flows2) by
    (done || apply npv_term_Raise).
  by rewrite (sum_terms_perm (dnpv_term rate) flows1 flows2) by
    (done || apply dnpv_term_Raise).
Qed.

Lemma newton_loop_perm flows1 flows2 max_iterations tolerance (n : nat) rate :
  flows1 ≡ₚ flows2 →
  newton_loop flows1 max_iterations tolerance n rate
  = newton_loop flows2 max_iterations tolerance n rate.
Proof.
  intros Hperm. revert rate. induction n as [|n IH]; intros rate; [done|].
  cbn [newton_loop]. rewrite (newton_step_perm flows1 flows2) by done.
  destruct (newton_step flows2 tolerance rate) as [[v|rate']|e]; [done| |done].
  by rewrite IH.
Qed.

(** Under the laws of exact addition [xirr] gives the same result, or the
    same failure, on every joint rearrangement of the (amount, date)
    pairs, also when dates repeat. *)
Lemma xirr_permutation_exact (cashflows cashflows' : list F) (dates dates' : list date)
    (guess : F) (max_iterations : Z) (tolerance : F) :
  length cashflows = length dates →
  length cashflows' = length dates' →
  zip cashflows' dates' ≡ₚ zip cashflows dates →
  xirr cashflows' dates' guess max_iterations tolerance
  = xirr cashflows dates guess max_iterations tolerance.
Proof.
  intros Hlen Hlen' Hperm.
  assert (length cashflows' = length cashflows) as Hsame.
  { apply Permutation_length in Hperm.
    rewrite !length_zip_with in Hperm. lia. }
  unfold xirr, xirr_run.
  rewrite (bool_decide_eq_false_2 (length cashflows' ≠ _)) by (intros ?; done).
  rewrite (bool_decide_eq_false_2 (length cashflows ≠ _)) by (intros ?; done).
  rewrite Hsame. case_bool_decide; [done|].
  rewrite !sorted_flows_pairs. f_equal. apply newton_loop_perm.
  apply shift_days_perm; [|apply sorted_pairs_sorted..].
  by rewrite !sorted_pairs_perm.
Qed.

End xirr_order.

Lemma NoDup_map_inj {A B : Type} (f : A → B) (l : list A) (x y : A) :
  NoDup (map f l) → x ∈ l → y ∈ l → f x = f y → x = y.
Proof.
  intros Hnd Hx Hy Heq. induction l as [|a l IH]; [by apply elem_of_nil in Hx|].
  cbn [map] in Hnd. apply NoDup_cons in Hnd as [Hnotin Hnd].
  apply elem_of_cons in Hx as [->|Hx], Hy as [->|Hy]; [done|..].
  - destruct Hnotin. rewrite Heq. apply list_elem_of_fmap. by exists y.
  - destruct Hnotin. rewrite <-Heq. apply list_elem_of_fmap. by exists x.
  - by apply IH.
Qed.

Section xirr_distinct.
Context `{Arith F}.
Local Open Scope arith_scope.

Lemma StronglySorted_by_snd (pairs : list (F * Z)) :
  Sorted Z.le (map snd pairs) → StronglySorted (λ a b, (a.2 ≤ b.2)%Z) pairs.
Proof.
  intros Hs. apply Sorted_StronglySorted in Hs; [|intros ???; lia].
  induction pairs as [|a l IH]; [constructor|].
  cbn [map] in Hs. apply StronglySorted_inv in Hs as [Hs Hall].
  constructor; [by apply IH|]. apply Forall_forall. intros b Hb.
  rewrite Forall_forall in Hall. apply Hall, list_elem_of_fmap. by exists b.
Qed.

(** Pairs with distinct dates have one arrangement in date order. *)
Lemma sorted_pairs_unique (cashflows cashflows' : list F) (dates dates' : list date) :
  length cashflows = length dates →
  length cashflows' = length dates' →
  zip cashflows' dates' ≡ₚ zip cashflows dates →
  NoDup dates →
  sorted_pairs cashflows' dates' = sorted_pairs cashflows dates.
Proof.
  intros Hlen Hlen' Hperm Hnd.
  assert (NoDup (map snd (zip cashflows dates))) as Hnd'.
  { change (map snd (zip cashflows dates)) with ((zip cashflows dates).*2).
    rewrite snd_zip by lia. done. }
  apply (StronglySorted_unique_strong (λ a b : F * Z, (a.2 ≤ b.2)%Z)).
  - intros x1 x2 Hx1 Hx2 H12 H21.
    rewrite sorted_pairs_perm, Hperm in Hx1 by done.
    rewrite sorted_pairs_perm in Hx2 by done.
    apply (NoDup_map_inj snd (zip cashflows dates)); [done..|lia].
  - apply StronglySorted_by_snd, sorted_pairs_sorted.
  - apply StronglySorted_by_snd, sorted_pairs_sorted.
  - by rewrite !sorted_pairs_perm.
Qed.

(** C9 (as amended): for amount and date lists of equal length whose dates
    are pairwise distinct, [xirr] gives the same result, or the same
    failure, on every joint rearrangement of the (amount, date) pairs,
    whatever the arithmetic. *)
Theorem xirr_permutation (cashflows cashflows' : list F) (dates dates' : list date)
    (guess : F) (max_iterations : Z) (tolerance : F) :
  length cashflows = length dates →
  length cashflows' = length dates' →
  zip cashflows' dates' ≡ₚ zip cashflows dates →
  NoDup dates →
  xirr cashflows' dates' guess max_iterations tolerance
  = xirr cashflows dates guess max_iterations tolerance.
Proof.
  intros Hlen Hlen' Hperm Hnd.
  assert (length cashflows' = length cashflows) as Hsame.
  { apply Permutation_length in Hperm.
    rewrite !length_zip_with in Hperm. lia. }
  unfold xirr, xirr_run.
  rewrite (bool_decide_eq_false_2 (length cashflows' ≠ _)) by (intros ?; done).
  rewrite (bool_decide_eq_false_2 (length cashflows ≠ _)) by (intros ?; done).
  rewrite Hsame. case_bool_decide; [done|].
  rewrite !sorted_flows_pairs.
  by rewrite (sorted_pairs_unique cashflows cashflows' dates dates').
Qed.

End xirr_distinct.

(** * Further properties *)

(** ** Sorting and the order of the rows *)

Section order_facts.
Context {F : Type}.
Implicit Types df : list (date * F).

(** Rows with pairwise distinct dates have one sorted arrangement. *)
Lemma sort_index_unique df df' :
  df' ≡ₚ df → NoDup (map fst df) → sort_index df' = sort_index df.
Proof.
  intros Hperm Hnd. apply (StronglySorted_unique_strong index_le).
  - intros x1 x2 Hx1 Hx2 H12 H21.
    rewrite sort_index_perm in Hx1, Hx2. rewrite Hperm in Hx1.
    assert (x1.1 = x2.1) as Heq by (unfold index_le in *; lia).
    clear H12 H21 Hperm. induction df as [|a l IH]; [by apply elem_of_nil in Hx1|].
    cbn [map] in Hnd. apply NoDup_cons in Hnd as [Hnotin Hnd].
    apply elem_of_cons in Hx1 as [->|Hx1], Hx2 as [->|Hx2]; [done|..].
    + exfalso. apply Hnotin. rewrite Heq. apply list_elem_of_fmap. by exists x2.
    + exfalso. apply Hnotin. rewrite <-Heq. apply list_elem_of_fmap. by exists x1.
    + by apply IH.
  - apply sort_index_sorted.
  - apply sort_index_sorted.
  - by rewrite !sort_index_perm.
Qed.

(** The first row of a sorted frame is its earliest, the last its latest. *)
Lemma sort_index_head_min df r r' :
  head (sort_index df) = Some r → r' ∈ df → (r.1 ≤ r'.1)%Z.
Proof.
  intros Hh Hin. rewrite <-sort_index_perm in Hin.
  pose proof (sort_index_sorted df) as Hs.
  destruct (sort_index df) as [|r0 l]; [done|]. injection Hh as ->.
  apply elem_of_cons in Hin as [->|Hin]; [lia|].
  apply StronglySorted_inv in Hs as [_ Hall].
  rewrite Forall_forall in Hall. by apply Hall.
Qed.

Lemma StronglySorted_last_max (l : list (date * F)) r r' :
  StronglySorted index_le l → last l = Some r → r' ∈ l → (r'.1 ≤ r.1)%Z.
Proof.
  intros Hs. revert r. induction Hs as [|a l Hl IH Ha]; intros r Hlast Hin; [done|].
  destruct l as [|b l].
  - injection Hlast as <-. apply list_elem_of_singleton in Hin as ->. lia.
  - rewrite last_cons_cons in Hlast.
    apply elem_of_cons in Hin as [->|Hin]; [|by apply IH].
    rewrite Forall_forall in Ha. apply Ha. by apply last_Some_elem_of.
Qed.

Lemma sort_index_last_max df r r' :
  last (sort_index df) = Some r → r' ∈ df → (r'.1 ≤ r.1)%Z.
Proof.
  intros Hl Hin. rewrite <-sort_index_perm in Hin.
  eapply StronglySorted_last_max; [apply sort_index_sorted|done..].
Qed.

End order_facts.

(** ** [calculate_trailing_cagr]: keys, windows and rows *)

Section trailing_more.
Context `{Arith F}.
Implicit Types df : list (date * F).
Implicit Types m : gmap string (option F).

(** The loop returns exactly when every window has an entry. *)
Lemma trailing_loop_Ok_iff df (ps : list Z) m0 :
  (∃ m, trailing_loop df ps m0 = Ok m)
  ↔ ∀ w, w ∈ ps → ∃ e, window_entry df w = Ok e.
Proof.
  revert m0. induction ps as [|w ps IH]; intros m0.
  - split; [|by eexists]. intros _ w Hw. by apply elem_of_nil in Hw.
  - rewrite trailing_loop_cons. split.
    + intros [m Hm]. apply bind_Ok in Hm as (e & He & Hm).
      intros w' [->|Hw']%elem_of_cons; [by exists e|].
      eapply IH; [by exists m|done].
    + intros Hall. destruct (Hall w) as [e He]; [apply elem_of_cons; by left|].
      rewrite He. cbn [mbind result_bind]. apply IH.
      intros w' Hw'. apply Hall, elem_of_cons. by right.
Qed.

(** X2: when [calculate_trailing_cagr] returns, its result has an entry under
    the key of each requested window, ["Max_CAGR"] for [-1] and
    [f'{period}Y_CAGR'] for any other, and under no other key. *)
Theorem trailing_keys df (ps : list Z) m :
  calculate_trailing_cagr df ps = Ok m →
  ∀ k : string, is_Some (m !! k) ↔ ∃ w, w ∈ ps ∧ window_key w = k.
Proof.
  intros Hrun k. apply trailing_loop_lookup in Hrun as [Hin Hout]. split.
  - intros Hsome.
    destruct (decide (Exists (λ w, window_key w = k) ps)) as [Hex|Hnex].
    { by apply Exists_exists in Hex. }
    rewrite Hout, lookup_empty in Hsome; [by destruct Hsome|].
    intros w Hw Hk. apply Hnex, Exists_exists. by exists w.
  - intros (w & Hw & <-). destruct (Hin w Hw) as (e & _ & ->). by eexists.
Qed.

(** X3: the result of [calculate_trailing_cagr] depends on which windows are
    requested, not on their order or on repetitions: whenever the call
    returns on one list of windows it returns the same on any list with the
    same elements. *)
Theorem trailing_windows_set df (ps1 ps2 : list Z) m :
  (∀ w, w ∈ ps1 ↔ w ∈ ps2) →
  calculate_trailing_cagr df ps1 = Ok m →
  calculate_trailing_cagr df ps2 = Ok m.
Proof.
  intros Hsame Hrun1. unfold calculate_trailing_cagr in *.
  destruct (proj2 (trailing_loop_Ok_iff (sort_index df) ps2 ∅)) as [m2 Hrun2].
  { intros w Hw. eapply trailing_loop_Ok_iff; [by eexists|by apply Hsame]. }
  rewrite Hrun2. f_equal. apply map_eq. intros k.
  apply trailing_loop_lookup in Hrun1 as [Hin1 Hout1].
  apply trailing_loop_lookup in Hrun2 as [Hin2 Hout2].
  destruct (decide (Exists (λ w, window_key w = k) ps1)) as [Hex|Hnex].
  - apply Exists_exists in Hex as (w & Hw & <-).
    destruct (Hin1 w Hw) as (e1 & He1 & ->).
    destruct (Hin2 w (proj1 (Hsame w) Hw)) as (e2 & He2 & ->). congruence.
  - rewrite Hout1, Hout2; [done|..].
    + intros w Hw Hk. apply Hnex, Exists_exists. exists w. by rewrite Hsame.
    + intros w Hw Hk. apply Hnex, Exists_exists. by exists w.
Qed.

(** X4: [calculate_trailing_cagr] sorts the series first: on a series with
    pairwise distinct dates the rows can come in any order. *)
Theorem trailing_rows_order df df' (ps : list Z) :
  df' ≡ₚ df → NoDup (map fst df) →
  calculate_trailing_cagr df' ps = calculate_trailing_cagr df ps.
Proof.
  intros Hperm Hnd. unfold calculate_trailing_cagr.
  by rewrite (sort_index_unique df df' Hperm Hnd).
Qed.

(** X5: on an empty series every request for at least one window raises the
    [IndexError] of the empty index; a request for no window returns the
    empty result. *)
Theorem trailing_empty_series (ps : list Z) :
  calculate_trailing_cagr ([] : list (date * F)) ps
  = match ps with [] => Ok ∅ | _ :: _ => Raise IndexError end.
Proof.
  unfold calculate_trailing_cagr. destruct ps as [|w ps]; [reflexivity|].
  change (sort_index ([] : list (date * F))) with ([] : list (date * F)).
  rewrite trailing_loop_cons. unfold window_entry.
  destruct (bool_decide (w = (-1)%Z)); reflexivity.
Qed.

End trailing_more.

(** ** [calculate_rolling_returns]: failures, matches and extremes *)

Global Instance Q_order_laws : OrderLaws Q.
Proof.
  split; unfold ltb, Q_arith, QExact.qltb.
  - intros x. apply negb_false_iff, Qle_bool_iff, Qle_refl.
  - intros x y z Hxy Hyz.
    apply negb_true_iff in Hxy, Hyz. apply negb_true_iff.
    destruct (Qle_bool z x) eqn:Hzx; [|done].
    apply Qle_bool_iff in Hzx.
    assert (¬ (y <= x)%Q) as Hxy' by (rewrite <-Qle_bool_iff; congruence).
    assert (¬ (z <= y)%Q) as Hyz' by (rewrite <-Qle_bool_iff; congruence).
    apply Qnot_le_lt in Hxy', Hyz'. exfalso.
    apply (Qlt_irrefl x). eapply Qlt_le_trans; [|exact Hzx].
    by eapply Qlt_trans.
Qed.

Section rolling_more.
Context `{Arith F}.
Local Open Scope arith_scope.
Implicit Types df : list (date * F).

Lemma merge_past_rows df period :
  df ≠ [] →
  merge_past df period =
    if keys_sorted (map (λ r, date_sub r.1 period) df) && keys_sorted (map fst df)
    then Ok (rolling_rows df period)
    else Raise KeysNotSorted.
Proof.
  intros Hne. rewrite (merge_past_cons _ _ Hne). cbv zeta.
  unfold rolling_rows. rewrite !map_map. cbn [fst snd].
  destruct (keys_sorted (map _ df)); [|reflexivity]. cbn [negb andb].
  by destruct (keys_sorted (map fst df)).
Qed.

Lemma with_returns_rows_nil df period :
  with_returns (rolling_rows df period) = []
  ↔ ∀ r, r ∈ df → asof_backward df (date_sub r.1 period) = None.
Proof.
  unfold with_returns, rolling_rows. generalize (asof_backward df). intros look.
  induction df as [|r l IH].
  - split; [|done]. intros _ r Hr. by apply elem_of_nil in Hr.
  - cbn [map omap list_omap row_match]. split.
    + destruct (look (date_sub r.1 period)) eqn:Hlook; [done|].
      intros Hnil r' [->|Hr']%elem_of_cons; [done|]. by apply IH.
    + intros Hall. rewrite (Hall r) by (apply elem_of_cons; by left).
      apply IH. intros r' Hr'. apply Hall, elem_of_cons. by right.
Qed.

Lemma arg_extreme_elem (better : F → F → bool) (best : returns_row F) rows :
  arg_extreme better best rows ∈ best :: rows.
Proof.
  revert best. induction rows as [|r rows IH]; intros best; cbn [arg_extreme].
  - apply elem_of_cons. by left.
  - destruct (better _ _).
    + apply elem_of_cons. right. apply IH.
    + specialize (IH best). apply elem_of_cons in IH as [->|IH].
      * apply elem_of_cons. by left.
      * apply elem_of_cons. right. apply elem_of_cons. by right.
Qed.

(** X6: on a series without a zero NAV, where every return is a number,
    [calculate_rolling_returns] raises the error of incompatible merge keys
    exactly on the empty series, raises the error of unsorted keys exactly
    when the index or the offset dates are not ascending, and fails with
    EmptyResult exactly when the series is not empty, both are ascending
    and no date of the series has a NAV at or before its offset date. *)
Theorem rolling_failures df period :
  (∀ r, r ∈ df → r.2 ≠ zero) →
  (calculate_rolling_returns df period = Raise IncompatibleMergeKeys ↔ df = [])
  ∧ (calculate_rolling_returns df period = Raise KeysNotSorted
     ↔ keys_sorted (map (λ r, date_sub r.1 period) df) = false
       ∨ keys_sorted (map fst df) = false)
  ∧ (fails_with (calculate_rolling_returns df period) EmptyResult
     ↔ df ≠ []
       ∧ keys_sorted (map (λ r, date_sub r.1 period) df) = true
       ∧ keys_sorted (map fst df) = true
       ∧ ∀ r, r ∈ df → asof_backward df (date_sub r.1 period) = None).
Proof.
  intros _. unfold calculate_rolling_returns.
  destruct (nil_or_not df) as [-> | Hne].
  { cbn [merge_past mbind result_bind map]. rewrite fails_with_Raise.
    assert (keys_sorted [] = true) as -> by reflexivity.
    cbn [kind_of]. split_and!; split; try done.
    - intros [?|?]; discriminate.
    - intros (? & _); done. }
  rewrite merge_past_rows by done.
  rewrite <-with_returns_rows_nil.
  destruct (keys_sorted (map _ df)); cbn [andb];
    [destruct (keys_sorted (map fst df))|]; cbn [mbind result_bind].
  - destruct (with_returns (rolling_rows df period)) as [|r rows] eqn:Hrows.
    { unfold idxmax, idx_extreme. cbn [mbind result_bind].
      rewrite fails_with_Raise. cbn [kind_of]. split_and!; split; try done.
      intros [?|?]; discriminate. }
    unfold idxmax, idxmin, idx_extreme. cbn [mbind result_bind].
    assert (∀ label (k : returns_row F → result (rolling_metrics F)),
      (∀ x, k x ≠ Raise IncompatibleMergeKeys ∧ k x ≠ Raise KeysNotSorted
            ∧ ¬ fails_with (k x) EmptyResult) →
      (loc_row (r :: rows) label ≫= k) ≠ Raise IncompatibleMergeKeys
      ∧ (loc_row (r :: rows) label ≫= k) ≠ Raise KeysNotSorted
      ∧ ¬ fails_with (loc_row (r :: rows) label ≫= k) EmptyResult) as Hloc.
    { intros label k Hk. unfold loc_row.
      destruct (filter _ (r :: rows)) as [|x [|??]]; cbn [mbind result_bind].
      - split_and!; [done..|]. by rewrite fails_with_Raise.
      - apply Hk.
      - split_and!; [done..|]. by rewrite fails_with_Raise. }
    match goal with |- (?run = _ ↔ _) ∧ _ =>
      assert (run ≠ Raise IncompatibleMergeKeys ∧ run ≠ Raise KeysNotSorted
              ∧ ¬ fails_with run EmptyResult) as (Hi & Hk & He)
    end.
    { apply Hloc. intros max_row. apply Hloc. intros min_row.
      split_and!; [done..|]. apply fails_with_Ok. }
    split_and!; split; try done.
    + intros [?|?]; discriminate.
    + intros (_ & _ & _ & ?). discriminate.
  - rewrite fails_with_Raise. cbn [kind_of]. split_and!; split; try done;
      [by right|]. intros (_ & _ & ? & _). discriminate.
  - rewrite fails_with_Raise. cbn [kind_of]. split_and!; split; try done;
      [by left|]. intros (_ & ? & _). discriminate.
Qed.

End rolling_more.

Section rolling_extremes.
Context `{Arith F}.
Local Open Scope arith_scope.
Implicit Types df : list (date * F).

Lemma loc_row_Ok (rows : list (returns_row F)) (label : date) (rr : returns_row F) :
  loc_row rows label = Ok rr →
  rr ∈ rows ∧ ret_name rr = label
  ∧ ∀ r, r ∈ rows → ret_name r = label → r = rr.
Proof.
  unfold loc_row. destruct (filter _ rows) as [|r0 [|??]] eqn:Hf; try done.
  intros [= <-].
  assert (∀ r, r ∈ filter (λ r, ret_name r = label) rows ↔ r = r0) as Hin.
  { intros r. rewrite Hf. apply list_elem_of_singleton. }
  pose proof (proj2 (Hin r0) eq_refl) as [? ?]%list_elem_of_filter.
  split_and!; [done..|]. intros r Hr Hl. apply Hin, list_elem_of_filter. done.
Qed.

(** The row a call reports as its maximum (or minimum) is the row the scan
    of the returns stops at. *)
Lemma idx_extreme_row (better : F → F → bool) (r : returns_row F) rows label rr :
  idx_extreme better (r :: rows) = Ok label →
  loc_row (r :: rows) label = Ok rr →
  rr = arg_extreme better r rows.
Proof.
  intros [= <-] (_ & _ & Huniq)%loc_row_Ok. symmetry.
  apply Huniq; [apply arg_extreme_elem|done].
Qed.

Lemma with_returns_map_elem (shift : date → date)
    (look : date → option (date * F)) df (rr : returns_row F) :
  rr ∈ with_returns
         (map (λ r, mkRollingRow r.1 r.2 (shift r.1) (look (shift r.1))) df) →
  ∃ cur n, cur ∈ df ∧ look (shift cur.1) = Some n
    ∧ rr = mkReturnsRow cur.1 (shift cur.1) n.1
             (round ((cur.2 - n.2) / n.2) 3).
Proof.
  unfold with_returns. intros (r & Hr & Hrr)%list_elem_of_omap.
  apply list_elem_of_fmap in Hr as (cur & -> & Hcur).
  cbn [row_match row_name past_date nav_current] in Hrr.
  exists cur. destruct (look (shift cur.1)) as [n|] eqn:Hn; [|discriminate].
  exists n. injection Hrr as <-. split_and!; [exact Hcur|reflexivity..].
Qed.

Lemma with_returns_rows_elem df period (rr : returns_row F) :
  rr ∈ with_returns (rolling_rows df period) →
  ∃ cur n, cur ∈ df ∧ asof_backward df (date_sub cur.1 period) = Some n
    ∧ rr = mkReturnsRow cur.1 (date_sub cur.1 period) n.1
             (round ((cur.2 - n.2) / n.2) 3).
Proof.
  exact (with_returns_map_elem (λ d, date_sub d period) (asof_backward df) df rr).
Qed.

(** On a frame with an ascending index, the backward match of a key is the
    latest row at or before it. *)
Lemma asof_backward_latest df (key : date) (n : date * F) :
  Sorted Z.le (map fst df) → asof_backward df key = Some n →
  n ∈ df ∧ (n.1 ≤ key)%Z ∧ ∀ n', n' ∈ df → (n'.1 ≤ key)%Z → (n'.1 ≤ n.1)%Z.
Proof.
  intros Hs Hn. pose proof (asof_backward_Some _ _ _ Hn) as [Hin Hle].
  split_and!; [done..|]. intros n' Hn' Hle'. unfold asof_backward in Hn.
  assert (StronglySorted index_le (filter (λ r, (r.1 ≤ key)%Z) df)) as Hsf.
  { apply Sorted_StronglySorted in Hs; [|intros ???; lia].
    clear Hn Hin Hn'. induction df as [|r l IH]; [constructor|].
    cbn [map] in Hs. apply StronglySorted_inv in Hs as [Hs Hall].
    rewrite filter_cons. case_decide; [|by apply IH].
    constructor; [by apply IH|].
    apply Forall_forall. intros x [_ Hx]%list_elem_of_filter.
    rewrite Forall_forall in Hall. apply Hall, list_elem_of_fmap. by exists x. }
  eapply StronglySorted_last_max; [exact Hsf|exact Hn|].
  by apply list_elem_of_filter.
Qed.

(** X7: when [calculate_rolling_returns] returns, [max_returns] is the return of
    the reported pair: the relative change, rounded to 3 decimals, from the
    latest NAV at or before the past date to the NAV of the current date. *)
Theorem rolling_max_is_latest_match df period m :
  calculate_rolling_returns df period = Ok m →
  ∃ cur n,
    cur ∈ df ∧ n ∈ df
    ∧ max_return_period m = (date_sub cur.1 period, cur.1)
    ∧ (n.1 ≤ date_sub cur.1 period)%Z
    ∧ (∀ n', n' ∈ df → (n'.1 ≤ date_sub cur.1 period)%Z → (n'.1 ≤ n.1)%Z)
    ∧ max_returns m = round ((cur.2 - n.2) / n.2) 3.
Proof.
  unfold calculate_rolling_returns. intros Hrun.
  apply bind_Ok in Hrun as (rows & Hrows & Hrun).
  apply bind_Ok in Hrun as (max_label & _ & Hrun).
  apply bind_Ok in Hrun as (max_row & Hmax & Hrun).
  apply bind_Ok in Hrun as (min_label & _ & Hrun).
  apply bind_Ok in Hrun as (min_row & _ & Hrun).
  injection Hrun as <-. cbn [max_return_period max_returns].
  pose proof (merge_past_Ok _ _ _ Hrows) as [Hsorted _].
  rewrite merge_past_rows in Hrows by (by eapply merge_past_nonempty).
  destruct (_ && _); [|done]. injection Hrows as <-.
  apply loc_row_elem, with_returns_rows_elem in Hmax as (cur & n & Hcur & Hn & ->).
  apply asof_backward_latest in Hn as (Hin & Hle & Hlatest); [|done].
  exists cur, n. cbn [ret_past_date ret_name returns]. split_and!; done.
Qed.

End rolling_extremes.

Section rolling_order.
Context `{OrderLaws F}.
Local Open Scope arith_scope.
Implicit Types df : list (date * F).

Lemma arg_max_bound (best : returns_row F) rows (seen : list (returns_row F)) :
  (∀ x, x ∈ seen → (returns best <? returns x) = false) →
  ∀ x, x ∈ seen ++ best :: rows →
    (returns (arg_extreme (λ x best, best <? x) best rows) <? returns x) = false.
Proof.
  revert best seen. induction rows as [|r rows IH]; intros best seen Hseen x Hx;
    cbn [arg_extreme].
  - apply elem_of_app in Hx as [Hx|Hx]; [by apply Hseen|].
    apply list_elem_of_singleton in Hx as ->. apply ltb_irrefl.
  - destruct (returns best <? returns r) eqn:Hlt.
    + apply (IH r (seen ++ [best])).
      * intros y [Hy|Hy]%elem_of_app.
        -- destruct (returns r <? returns y) eqn:Hry; [|done].
           rewrite <-(Hseen y Hy). symmetry. by eapply ltb_trans.
        -- apply list_elem_of_singleton in Hy as ->.
           destruct (returns r <? returns best) eqn:Hrb; [|done].
           rewrite <-(ltb_irrefl (returns best)). symmetry. by eapply ltb_trans.
      * rewrite <-app_assoc. exact Hx.
    + apply (IH best (seen ++ [r])).
      * intros y [Hy|Hy]%elem_of_app; [by apply Hseen|].
        by apply list_elem_of_singleton in Hy as ->.
      * rewrite <-app_assoc. cbn.
        rewrite !elem_of_app, !elem_of_cons in Hx |- *. tauto.
Qed.

Lemma arg_min_bound (best : returns_row F) rows (seen : list (returns_row F)) :
  (∀ x, x ∈ seen → (returns x <? returns best) = false) →
  ∀ x, x ∈ seen ++ best :: rows →
    (returns x <? returns (arg_extreme (λ x best, x <? best) best rows)) = false.
Proof.
  revert best seen. induction rows as [|r rows IH]; intros best seen Hseen x Hx;
    cbn [arg_extreme].
  - apply elem_of_app in Hx as [Hx|Hx]; [by apply Hseen|].
    apply list_elem_of_singleton in Hx as ->. apply ltb_irrefl.
  - destruct (returns r <? returns best) eqn:Hlt.
    + apply (IH r (seen ++ [best])).
      * intros y [Hy|Hy]%elem_of_app.
        -- destruct (returns y <? returns r) eqn:Hyr; [|done].
           rewrite <-(Hseen y Hy). symmetry. by eapply ltb_trans.
        -- apply list_elem_of_singleton in Hy as ->.
           destruct (returns best <? returns r) eqn:Hbr; [|done].
           rewrite <-(ltb_irrefl (returns best)). symmetry. by eapply ltb_trans.
      * rewrite <-app_assoc. exact Hx.
    + apply (IH best (seen ++ [r])).
      * intros y [Hy|Hy]%elem_of_app; [by apply Hseen|].
        by apply list_elem_of_singleton in Hy as ->.
      * rewrite <-app_assoc. cbn.
        rewrite !elem_of_app, !elem_of_cons in Hx |- *. tauto.
Qed.

(** X8: when [calculate_rolling_returns] returns, no return of the series is
    above [max_returns] or below [min_returns], and both are returns of the
    series (for exact numbers, whose order is transitive). *)
Theorem rolling_extremes_bound df period m :
  calculate_rolling_returns df period = Ok m →
  let all := map returns (with_returns (rolling_rows df period)) in
  max_returns m ∈ all ∧ min_returns m ∈ all
  ∧ ∀ x, x ∈ all → (max_returns m <? x) = false ∧ (x <? min_returns m) = false.
Proof.
  unfold calculate_rolling_returns. intros Hrun.
  apply bind_Ok in Hrun as (rows & Hrows & Hrun).
  rewrite merge_past_rows in Hrows by (by eapply merge_past_nonempty).
  destruct (_ && _); [|done]. injection Hrows as <-.
  apply bind_Ok in Hrun as (max_label & Hmaxl & Hrun).
  apply bind_Ok in Hrun as (max_row & Hmax & Hrun).
  apply bind_Ok in Hrun as (min_label & Hminl & Hrun).
  apply bind_Ok in Hrun as (min_row & Hmin & Hrun).
  injection Hrun as <-. cbn [max_returns min_returns]. cbv zeta.
  destruct (with_returns (rolling_rows df period)) as [|r rows] eqn:Hall; [done|].
  pose proof (idx_extreme_row _ _ _ _ _ Hmaxl Hmax) as ->.
  pose proof (idx_extreme_row _ _ _ _ _ Hminl Hmin) as ->.
  split_and!.
  - apply list_elem_of_fmap. eexists. split; [done|]. apply arg_extreme_elem.
  - apply list_elem_of_fmap. eexists. split; [done|]. apply arg_extreme_elem.
  - intros x (rr & -> & Hrr)%list_elem_of_fmap. split.
    + apply (arg_max_bound r rows []); [|done]. intros ? ?%elem_of_nil. done.
    + apply (arg_min_bound r rows []); [|done]. intros ? ?%elem_of_nil. done.
Qed.

End rolling_order.

Section rolling_success.
Context `{Arith F}.
Local Open Scope arith_scope.
Implicit Types df : list (date * F).

Lemma with_returns_map_names (shift : date → date)
    (look : date → option (date * F)) df :
  map ret_name
    (with_returns
       (map (λ r, mkRollingRow r.1 r.2 (shift r.1) (look (shift r.1))) df))
  `sublist_of` map fst df.
Proof.
  unfold with_returns. induction df as [|r l IH]; [constructor|].
  cbn [map omap list_omap row_match row_name].
  destruct (look (shift r.1)); cbn [map ret_name]; by constructor.
Qed.

Lemma with_returns_rows_names df period :
  map ret_name (with_returns (rolling_rows df period)) `sublist_of` map fst df.
Proof.
  exact (with_returns_map_names (λ d, date_sub d period) (asof_backward df) df).
Qed.

(** Among rows with distinct labels, [.loc[label]] is the one row with the
    label. *)
Lemma loc_row_NoDup (rows : list (returns_row F)) (r : returns_row F) :
  NoDup (map ret_name rows) → r ∈ rows → loc_row rows (ret_name r) = Ok r.
Proof.
  intros Hnd Hin. unfold loc_row.
  assert (filter (λ x, ret_name x = ret_name r) rows = [r]) as ->; [|done].
  induction rows as [|a l IH]; [by apply elem_of_nil in Hin|].
  cbn [map] in Hnd. apply NoDup_cons in Hnd as [Hnotin Hnd].
  apply elem_of_cons in Hin as [->|Hin].
  - rewrite filter_cons_True by done. f_equal.
    destruct (filter _ l) as [|x ?] eqn:Hf; [done|]. exfalso.
    assert (x ∈ filter (λ x, ret_name x = ret_name a) l) as Hx.
    { rewrite Hf. apply elem_of_cons. by left. }
    apply list_elem_of_filter in Hx as [Hname Hx].
    apply Hnotin. rewrite <-Hname. apply list_elem_of_fmap. by exists x.
  - rewrite filter_cons_False; [by apply IH|].
    intros Hname. apply Hnotin. rewrite Hname. apply list_elem_of_fmap. by exists r.
Qed.

(** X9: on a series with distinct dates and without a zero NAV, where every
    return is a number, [calculate_rolling_returns] returns exactly when
    the offset dates and the index are ascending and some date of the
    series has a NAV at or before its offset date. *)
Theorem rolling_returns_iff df period :
  NoDup (map fst df) → (∀ r, r ∈ df → r.2 ≠ zero) →
  (∃ m, calculate_rolling_returns df period = Ok m)
  ↔ keys_sorted (map (λ r, date_sub r.1 period) df) = true
    ∧ keys_sorted (map fst df) = true
    ∧ ∃ r, r ∈ df ∧ is_Some (asof_backward df (date_sub r.1 period)).
Proof.
  intros Hnd _. unfold calculate_rolling_returns.
  destruct (nil_or_not df) as [-> | Hne].
  { cbn [merge_past mbind result_bind]. split; [intros [? ?]; discriminate|].
    intros (_ & _ & r & Hr & _). by apply elem_of_nil in Hr. }
  rewrite merge_past_rows by done.
  pose proof (with_returns_rows_names df period) as Hsub.
  apply sublist_NoDup in Hsub; [|done].
  pose proof (with_returns_rows_nil df period) as Hnil.
  pose proof (with_returns_rows_elem df period) as Helem.
  destruct (keys_sorted (map _ df)); cbn [andb];
    [destruct (keys_sorted (map fst df))|]; cbn [mbind result_bind].
  - destruct (with_returns (rolling_rows df period)) as [|r rows] eqn:Hrows.
    + unfold idxmax, idx_extreme. cbn [mbind result_bind].
      split; [intros [? ?]; discriminate|].
      intros (_ & _ & r & Hr & Hsome). exfalso.
      rewrite (proj1 Hnil eq_refl r Hr) in Hsome. by destruct Hsome.
    + unfold idxmax, idxmin, idx_extreme. cbn [mbind result_bind].
      rewrite !loc_row_NoDup by (done || apply arg_extreme_elem).
      cbn [mbind result_bind]. split; [|by eexists].
      intros _. split_and!; [done..|].
      destruct (Helem r) as (cur & n & Hcur & Hn & _).
      { apply elem_of_cons. by left. }
      exists cur. split; [done|]. rewrite Hn. by eexists.
  - split; [intros [? ?]; discriminate|]. intros (_ & ? & _). discriminate.
  - split; [intros [? ?]; discriminate|]. intros (? & _). discriminate.
Qed.

End rolling_success.

Section sip_more.
Context `{Arith F}.
Local Open Scope arith_scope.
Implicit Types sip nav : list (date * F).

(** On a frame sorted by its index, the forward match of a key is the
    earliest row at or after it, and there is none exactly when every row
    is before the key. *)
Lemma asof_forward_earliest nav (key : date) (n : date * F) :
  StronglySorted index_le nav → asof_forward nav key = Some n →
  ∀ n', n' ∈ nav → (key ≤ n'.1)%Z → (n.1 ≤ n'.1)%Z.
Proof.
  unfold asof_forward. intros Hs. induction Hs as [|a l Hl IH Ha]; [done|].
  rewrite filter_cons. case_decide as Hkey.
  - intros [= <-] n' [->|Hn']%elem_of_cons _; [lia|].
    rewrite Forall_forall in Ha. by apply Ha.
  - intros Hh n' [->|Hn']%elem_of_cons Hle; [done|]. by apply IH.
Qed.

Lemma asof_forward_None nav (key : date) :
  asof_forward nav key = None ↔ ∀ n', n' ∈ nav → (n'.1 < key)%Z.
Proof.
  unfold asof_forward. induction nav as [|a l IH].
  - split; [|done]. intros _ n' Hn'. by apply elem_of_nil in Hn'.
  - rewrite filter_cons. case_decide as Hkey.
    + split; [done|]. intros Hall.
      specialize (Hall a (proj2 (elem_of_cons _ _ _) (or_introl eq_refl))). lia.
    + rewrite IH. split.
      * intros Hall n' [->|Hn']%elem_of_cons; [lia|]. by apply Hall.
      * intros Hall n' Hn'. apply Hall, elem_of_cons. by right.
Qed.

Lemma merge_forward_elem sip nav (row : merged_row F) :
  row ∈ merge_forward sip nav →
  matched_nav row = snd <$> asof_forward nav (sip_date row).
Proof.
  unfold merge_forward. intros (c & -> & _)%list_elem_of_fmap. reflexivity.
Qed.

Lemma merge_forward_contributions sip nav :
  map (λ row, (sip_date row, amount row)) (merge_forward sip nav) = sip.
Proof.
  unfold merge_forward. rewrite map_map. cbn [sip_date amount].
  induction sip as [|[d a] sip IH]; [done|]. cbn [map fst snd]. by rewrite IH.
Qed.

(** X10: when [calculate_sip_returns] returns, the units it totals are bought,
    for every contribution in date order, at the NAV of the earliest date of
    the NAV series at or after the contribution date; a contribution dated
    after every NAV date buys none. *)
Theorem sip_units_earliest_nav sip nav r :
  calculate_sip_returns sip nav = Ok r →
  ∃ merged,
    total_units r = round (series_sum_skipna (map units merged)) 4
    ∧ map (λ row, (sip_date row, amount row)) merged = sort_index sip
    ∧ ∀ row, row ∈ merged →
        match matched_nav row with
        | Some v =>
            ∃ n, n ∈ nav ∧ n.2 = v ∧ (sip_date row ≤ n.1)%Z
              ∧ ∀ n', n' ∈ nav → (sip_date row ≤ n'.1)%Z → (n.1 ≤ n'.1)%Z
        | None => ∀ n', n' ∈ nav → (n'.1 < sip_date row)%Z
        end.
Proof.
  intros (_ & _ & _ & _ & _ & Hunits & _)%calculate_sip_returns_Ok.
  exists (merge_forward (sort_index sip) (sort_index nav)).
  split_and!; [exact Hunits|apply merge_forward_contributions|].
  intros row Hrow%merge_forward_elem. rewrite Hrow.
  destruct (asof_forward (sort_index nav) (sip_date row)) as [n|] eqn:Hn;
    cbn [fmap option_fmap option_map].
  - pose proof (asof_forward_Some _ _ _ Hn) as [Hin Hle].
    exists n. rewrite sort_index_perm in Hin. split_and!; [done..|].
    intros n' Hn' Hle'. eapply asof_forward_earliest;
      [apply sort_index_sorted|exact Hn| |exact Hle'].
    by rewrite sort_index_perm.
  - intros n' Hn'. eapply asof_forward_None; [exact Hn|].
    by rewrite sort_index_perm.
Qed.

(** X11: with at least one contribution and one NAV point, in any order,
    [calculate_sip_returns] returns; [investment_period_days] is the days
    from the earliest contribution date to the latest NAV date (negative
    when the contributions begin later), and [current_nav] is the NAV of a
    latest date, rounded to 2 decimals. *)
Theorem sip_period_days sip nav :
  sip ≠ [] → nav ≠ [] →
  ∃ r c n,
    calculate_sip_returns sip nav = Ok r
    ∧ c ∈ sip ∧ (∀ c', c' ∈ sip → (c.1 ≤ c'.1)%Z)
    ∧ n ∈ nav ∧ (∀ n', n' ∈ nav → (n'.1 ≤ n.1)%Z)
    ∧ investment_period_days r = (n.1 - c.1)%Z
    ∧ current_nav r = round n.2 2.
Proof.
  intros Hsip Hnav.
  assert (sort_index nav ≠ []) as Hnav'.
  { intros Heq. apply Hnav, length_zero_iff_nil.
    by rewrite <-sort_index_length, Heq. }
  assert (sort_index sip ≠ []) as Hsip'.
  { intros Heq. apply Hsip, length_zero_iff_nil.
    by rewrite <-sort_index_length, Heq. }
  destruct (nonempty_head_last _ Hnav') as (n1 & n & _ & Hn).
  destruct (nonempty_head_last _ Hsip') as (c & c2 & Hc & _).
  assert (0 < length (sort_index sip))%nat as Hlen.
  { destruct (sort_index sip); [done|]. cbn. lia. }
  unfold calculate_sip_returns. cbv zeta.
  rewrite (iloc_last_last _ _ Hn), (index_last_last _ _ Hn),
    (index_first_head _ _ Hc).
  rewrite (bool_decide_eq_true_2 _ Hlen).
  cbn [mbind result_bind].
  match goal with |- context [if ?b then _ else Ok None] => destruct b end;
    cbn [mbind result_bind];
    [match goal with |- context [if ?b then _ else Ok None] => destruct b end|];
    cbn [mbind result_bind];
    (eexists _, c, n; split; [reflexivity|];
     cbn [investment_period_days current_nav];
     split_and!;
     [ rewrite <-(sort_index_perm sip); by apply head_Some_elem_of
     | intros c' Hc'; by eapply sort_index_head_min
     | rewrite <-(sort_index_perm nav); by apply last_Some_elem_of
     | intros n' Hn'; by eapply sort_index_last_max
     | reflexivity | reflexivity ]).
Qed.

(** X12: the order of the rows of either frame does not matter when its dates
    are distinct: both frames are sorted first. *)
Theorem sip_rows_order sip sip' nav nav' :
  sip' ≡ₚ sip → nav' ≡ₚ nav →
  NoDup (map fst sip) → NoDup (map fst nav) →
  calculate_sip_returns sip' nav' = calculate_sip_returns sip nav.
Proof.
  intros Hsip Hnav Hnds Hndn. unfold calculate_sip_returns.
  rewrite (sort_index_unique sip sip' Hsip Hnds).
  rewrite (sort_index_unique nav nav' Hnav Hndn). reflexivity.
Qed.

End sip_more.

Section xirr_days.
Context `{Arith F}.
Local Open Scope arith_scope.

Lemma Sorted_le_head (l : list Z) (x : Z) :
  Sorted Z.le l → x ∈ l → (nth 0 l 0 ≤ x)%Z.
Proof.
  intros Hs Hx. apply Sorted_StronglySorted in Hs; [|intros ???; lia].
  destruct Hs as [|a l Hl Ha]; [by apply elem_of_nil in Hx|]. cbn [nth].
  apply elem_of_cons in Hx as [->|Hx]; [lia|].
  rewrite Forall_forall in Ha. by apply Ha.
Qed.

Lemma zip_shift (cashflows : list F) (dates : list date) (s : Z) :
  map (λ p, (p.1, p.2 - s)%Z) (zip cashflows dates)
  = zip cashflows (map (λ d, d - s)%Z dates).
Proof.
  revert dates. induction cashflows as [|cf cfs IH]; intros [|d ds]; try done.
  cbn [zip zip_with map fst snd]. f_equal. apply IH.
Qed.

(** X13: the flows [xirr] hands to the solver, for as many dates as cash flows:
    every cash flow paired with the days from the earliest date to its own
    date, in ascending order of the days; the days are never negative and
    the first is 0. *)
Theorem xirr_days_from_earliest (cashflows : list F) (dates : list date) :
  length cashflows = length dates → dates ≠ [] →
  ∃ start_date,
    start_date ∈ dates ∧ (∀ d, d ∈ dates → (start_date ≤ d)%Z)
    ∧ sorted_flows cashflows dates
        ≡ₚ zip cashflows (map (λ d, d - start_date)%Z dates)
    ∧ Sorted Z.le (map snd (sorted_flows cashflows dates))
    ∧ head (map snd (sorted_flows cashflows dates)) = Some 0%Z
    ∧ ∀ p, p ∈ sorted_flows cashflows dates → (0 ≤ p.2)%Z.
Proof.
  intros Hlen Hne. rewrite sorted_flows_pairs.
  pose proof (sorted_pairs_perm cashflows dates Hlen) as Hperm.
  pose proof (sorted_pairs_sorted cashflows dates) as Hsorted.
  assert (map snd (sorted_pairs cashflows dates) ≡ₚ dates) as Hdates.
  { rewrite Hperm. change (map snd (zip cashflows dates)) with ((zip cashflows dates).*2).
    rewrite snd_zip by lia. done. }
  unfold shift_days. set (pairs := sorted_pairs cashflows dates) in *.
  set (start_date := nth 0 (map snd pairs) 0%Z).
  assert (∀ d, d ∈ map snd pairs → (start_date ≤ d)%Z) as Hmin.
  { intros d Hd. by apply Sorted_le_head. }
  assert (∃ p0 rest, pairs = p0 :: rest) as (p0 & rest & Hpairs).
  { destruct pairs as [|p0 rest]; [|by eexists _, _].
    apply Permutation_nil_l in Hdates. by destruct Hne. }
  exists start_date. split_and!.
  - rewrite <-Hdates. unfold start_date. rewrite Hpairs. cbn [map nth].
    apply elem_of_cons. by left.
  - intros d Hd. apply Hmin. by rewrite Hdates.
  - etrans; [apply Permutation_map, Hperm|]. by rewrite zip_shift.
  - rewrite map_map. cbn [snd].
    rewrite <-(map_map snd (λ d, d - start_date)%Z).
    apply (Sorted_fmap (λ d, d - start_date)%Z Z.le Z.le); [|done].
    intros x y Hxy. lia.
  - rewrite map_map. cbn [snd]. unfold start_date. rewrite Hpairs.
    cbn [map head nth]. f_equal. lia.
  - intros p (q & -> & Hq)%list_elem_of_fmap. cbn [snd].
    assert (q.2 ∈ map snd pairs) as Hin by (apply list_elem_of_fmap; by exists q).
    specialize (Hmin _ Hin). lia.
Qed.

End xirr_days.

(** ** [utils.split_into_date_pairs] *)

Lemma date_min_value : date_min = (-719162)%Z.
Proof. reflexivity. Qed.

Lemma date_max_value : date_max = 2932896%Z.
Proof. reflexivity. Qed.

Lemma timedelta_Returned (days : Z) :
  (-999999999 ≤ days ≤ 999999999)%Z → timedelta days = Returned days.
Proof. intros Hd. unfold timedelta. by rewrite bool_decide_eq_true_2. Qed.

Lemma datetime_add_Returned (d delta : Z) :
  (date_min ≤ d + delta ≤ date_max)%Z → datetime_add d delta = Returned (d + delta)%Z.
Proof. intros Hd. unfold datetime_add. by rewrite bool_decide_eq_true_2. Qed.

Lemma datetime_add_Overflow (d delta : Z) :
  ¬ (date_min ≤ d + delta ≤ date_max)%Z → datetime_add d delta = OverflowError.
Proof. intros Hd. unfold datetime_add. by rewrite bool_decide_eq_false_2. Qed.

Lemma timedelta_inv (days r : Z) :
  timedelta days = Returned r → r = days ∧ (-999999999 ≤ days ≤ 999999999)%Z.
Proof. unfold timedelta. case_bool_decide; [|done]. by intros [= <-]. Qed.

Lemma datetime_add_inv (d delta r : Z) :
  datetime_add d delta = Returned r →
  r = (d + delta)%Z ∧ (date_min ≤ d + delta ≤ date_max)%Z.
Proof. unfold datetime_add. case_bool_decide; [|done]. by intros [= <-]. Qed.

Lemma windows_nil (cs e n : Z) : (1 ≤ n)%Z → (e ≤ cs)%Z → windows cs e n = [].
Proof.
  intros Hn Hle. unfold windows.
  assert ((e - cs + n - 1) / n ≤ 0)%Z as Hq.
  { assert ((e - cs + n - 1) / n < 1)%Z; [|lia].
    apply Z.div_lt_upper_bound; lia. }
  replace (Z.to_nat _) with 0%nat by lia. reflexivity.
Qed.

Lemma windows_length (cs e n : Z) :
  length (windows cs e n) = Z.to_nat ((e - cs + n - 1) / n).
Proof. unfold windows. by rewrite length_map, length_seq. Qed.

(** One pass of the loop takes the first window and leaves the others. *)
Lemma windows_step (cs e n : Z) :
  (1 ≤ n)%Z → (cs < e)%Z →
  windows cs e n
  = (cs, Z.min (cs + n - 1) e) :: windows (Z.min (cs + n - 1) e + 1) e n.
Proof.
  intros Hn Hlt. destruct (decide (cs + n - 1 < e)%Z) as [Hin|Hout].
  - rewrite Z.min_l by lia. unfold windows.
    replace (e - cs + n - 1)%Z with ((e - (cs + n - 1 + 1) + n - 1) + 1 * n)%Z by lia.
    rewrite Z.div_add by lia.
    assert (0 ≤ (e - (cs + n - 1 + 1) + n - 1) / n)%Z as Hq
      by (apply Z.div_pos; lia).
    replace (Z.to_nat (_ + 1)) with (S (Z.to_nat ((e - (cs + n - 1 + 1) + n - 1) / n)))
      by lia.
    cbn [seq map]. f_equal.
    + unfold window. f_equal; lia.
    + rewrite <-seq_shift, map_map. apply map_ext. intros i.
      unfold window. f_equal; lia.
  - rewrite Z.min_r by lia. rewrite (windows_nil (e + 1)) by lia.
    unfold windows.
    assert ((e - cs + n - 1) / n = 1)%Z as ->.
    { symmetry. apply (Z.div_unique _ _ 1 (e - cs - 1)); lia. }
    change (Z.to_nat 1) with 1%nat. cbn [seq map]. f_equal.
    unfold window. f_equal; lia.
Qed.

(** What the loop does with any fuel, for a positive [n_days] that does not
    carry a window past the last date a [datetime] holds. *)
Lemma split_loop_windows (fuel : nat) (cs e n : Z) (pairs : list (date * date)) :
  (date_min ≤ cs)%Z → (1 ≤ n)%Z → (e + n - 1 ≤ date_max)%Z →
  split_loop fuel cs e n pairs
  = if bool_decide (length (windows cs e n) < fuel)%nat
    then Some (Returned (pairs ++ windows cs e n)) else None.
Proof.
  intros Hmin Hn Hmax. revert cs pairs Hmin.
  induction fuel as [|fuel IH]; intros cs pairs Hmin.
  - by rewrite bool_decide_eq_false_2 by lia.
  - cbn [split_loop]. case_bool_decide as Hlt.
    + pose proof date_min_value as Hlo. pose proof date_max_value as Hhi.
      rewrite timedelta_Returned by lia.
      rewrite datetime_add_Returned by lia. cbv zeta.
      replace (cs + (n - 1))%Z with (cs + n - 1)%Z by lia.
      rewrite datetime_add_Returned by lia.
      rewrite IH by lia. rewrite (windows_step cs e n) by lia.
      cbn [length]. rewrite <-app_assoc. cbn [app].
      repeat case_bool_decide; (done || lia).
    + rewrite windows_nil by lia. cbn [length].
      rewrite bool_decide_eq_true_2 by lia. by rewrite app_nil_r.
Qed.

(** X14: for a positive [n_days] and dates from which a window of [n_days] days
    still fits before 9999-12-31, [split_into_date_pairs] returns as soon as
    the fuel exceeds the number of windows, and never anything else: the
    [i]-th pair begins [i * n_days] days after the start date and ends
    [n_days - 1] days later, or at the end date if that comes first; there
    is a pair for every such beginning before the end date. *)
Theorem split_pairs_windows (fuel : nat) (start_date end_date n_days : Z) :
  (date_min ≤ start_date)%Z → (1 ≤ n_days)%Z →
  (end_date + n_days - 1 ≤ date_max)%Z →
  let pairs := windows start_date end_date n_days in
  ((length pairs < fuel)%nat →
     split_into_date_pairs fuel start_date end_date n_days = Some (Returned pairs))
  ∧ ((fuel ≤ length pairs)%nat →
     split_into_date_pairs fuel start_date end_date n_days = None)
  ∧ (∀ (i : nat) p, pairs !! i = Some p →
       p.1 = (start_date + Z.of_nat i * n_days)%Z
       ∧ p.2 = Z.min (p.1 + n_days - 1) end_date
       ∧ (p.1 < end_date)%Z)
  ∧ (∀ i : nat, (start_date + Z.of_nat i * n_days < end_date)%Z →
       is_Some (pairs !! i)).
Proof.
  intros Hmin Hn Hmax pairs. unfold split_into_date_pairs.
  rewrite split_loop_windows by done. fold pairs.
  assert (0 ≤ (end_date - start_date + n_days - 1) / n_days
          ∨ end_date - start_date + n_days - 1 < 0)%Z as Hsign.
  { destruct (decide (0 ≤ end_date - start_date + n_days - 1)%Z);
      [left; apply Z.div_pos; lia|right; lia]. }
  assert (∀ i : nat, (i < length pairs)%nat
            ↔ (start_date + Z.of_nat i * n_days < end_date)%Z) as Hcount.
  { intros i. unfold pairs. rewrite windows_length.
    pose proof (Z.div_mod (end_date - start_date + n_days - 1) n_days) as Hdm.
    pose proof (Z.mod_pos_bound (end_date - start_date + n_days - 1) n_days) as Hmb.
    destruct Hsign as [Hq|Hneg].
    - split; intros Hi; nia.
    - assert ((end_date - start_date + n_days - 1) / n_days < 0)%Z
        by (apply Z.div_lt_upper_bound; lia).
      split; intros Hi; nia. }
  split_and!.
  - intros Hlt. by rewrite bool_decide_eq_true_2.
  - intros Hle. by rewrite bool_decide_eq_false_2 by lia.
  - intros i p Hp. pose proof (lookup_lt_Some _ _ _ Hp) as Hi.
    apply Hcount in Hi. unfold pairs, windows in Hp.
    rewrite list_lookup_fmap in Hp.
    destruct (seq _ _ !! i) as [j|] eqn:Hj; [|done].
    apply lookup_seq in Hj as [-> _]. injection Hp as <-.
    unfold window. cbn [fst snd]. split_and!; [lia|f_equal; lia|lia].
  - intros i Hi. apply lookup_lt_is_Some, Hcount, Hi.
Qed.

Lemma windows_elem (cs e n : Z) (p : date * date) :
  (1 ≤ n)%Z →
  p ∈ windows cs e n
  ↔ ∃ i : nat, p = window cs e n i ∧ (cs + Z.of_nat i * n < e)%Z.
Proof.
  intros Hn. unfold windows. rewrite list_elem_of_fmap.
  pose proof (Z.div_mod (e - cs + n - 1) n) as Hdm.
  pose proof (Z.mod_pos_bound (e - cs + n - 1) n) as Hmb.
  assert (0 ≤ (e - cs + n - 1) / n ∨ (e - cs + n - 1) / n < 0)%Z as Hsign by lia.
  split.
  - intros (i & -> & Hi). exists i. split; [done|].
    apply elem_of_seq in Hi. destruct Hsign; nia.
  - intros (i & -> & Hi). exists i. split; [done|].
    apply elem_of_seq. destruct Hsign; nia.
Qed.

(** X15: the days the pairs cover, under the same conditions: every day from the
    start date to the end date, except the end date itself when it is a
    whole number of windows after the start date; nothing when the start
    date is not before the end date. *)
Theorem split_pairs_cover (fuel : nat) (start_date end_date n_days : Z)
    (pairs : list (date * date)) :
  (date_min ≤ start_date)%Z → (1 ≤ n_days)%Z →
  (end_date + n_days - 1 ≤ date_max)%Z →
  split_into_date_pairs fuel start_date end_date n_days = Some (Returned pairs) →
  ∀ d : date,
    (∃ p, p ∈ pairs ∧ (p.1 ≤ d ≤ p.2)%Z)
    ↔ (start_date ≤ d ≤ end_date)%Z ∧ (start_date < end_date)%Z
      ∧ ¬ (d = end_date ∧ ((end_date - start_date) mod n_days = 0)%Z).
Proof.
  intros Hmin Hn Hmax. unfold split_into_date_pairs.
  rewrite split_loop_windows by done. case_bool_decide; [|done].
  intros [= <-] d. cbn [app]. split.
  - intros (p & Hp & Hd). apply windows_elem in Hp as (i & -> & Hi); [|done].
    unfold window in Hd. cbn [fst snd] in Hd. split_and!; [lia..|].
    intros [-> Hmod].
    apply Z.mod_divide in Hmod; [|lia]. destruct Hmod as [k Hk].
    assert (end_date ≤ start_date + Z.of_nat i * n_days + n_days - 1)%Z as Hend by lia.
    assert (Z.of_nat i < k)%Z as Hik by nia.
    assert ((Z.of_nat i + 1) * n_days ≤ k * n_days)%Z by nia. lia.
  - intros (Hd & Hlt & Hgap).
    pose proof (Z.div_mod (d - start_date) n_days) as Hdm.
    pose proof (Z.mod_pos_bound (d - start_date) n_days) as Hmb.
    assert (0 ≤ (d - start_date) / n_days)%Z as Hq by (apply Z.div_pos; lia).
    exists (window start_date end_date n_days (Z.to_nat ((d - start_date) / n_days))).
    assert (start_date + Z.of_nat (Z.to_nat ((d - start_date) / n_days)) * n_days
              < end_date)%Z as Hstart.
    { rewrite Z2Nat.id by done.
      destruct (decide (d = end_date)) as [->|Hne]; [|nia].
      destruct (decide ((end_date - start_date) mod n_days = 0)%Z) as [Hz|Hnz];
        [by destruct Hgap|].
      nia. }
    split.
    + apply windows_elem; [done|]. by eexists.
    + unfold window. cbn [fst snd]. rewrite Z2Nat.id by done. nia.
Qed.

Lemma split_loop_zero (fuel : nat) (cs e : Z) (pairs : list (date * date)) :
  (date_min < cs)%Z → (cs < e)%Z → (e ≤ date_max)%Z →
  split_loop fuel cs e 0 pairs = None.
Proof.
  intros Hmin Hlt Hmax. revert pairs.
  induction fuel as [|fuel IH]; intros pairs; [done|].
  cbn [split_loop]. rewrite bool_decide_eq_true_2 by done.
  rewrite timedelta_Returned by lia.
  rewrite datetime_add_Returned by lia. cbv zeta.
  rewrite Z.min_l by lia. rewrite datetime_add_Returned by lia.
  replace (cs + (0 - 1) + 1)%Z with cs by lia. apply IH.
Qed.

Lemma split_loop_nonpositive (fuel : nat) (cs e n : Z) (pairs : list (date * date)) :
  (n ≤ 0)%Z → (cs < e)%Z →
  split_loop fuel cs e n pairs = None
  ∨ split_loop fuel cs e n pairs = Some OverflowError.
Proof.
  intros Hn. revert cs pairs.
  induction fuel as [|fuel IH]; intros cs pairs Hlt; [by left|].
  cbn [split_loop]. rewrite bool_decide_eq_true_2 by done.
  destruct (timedelta (n - 1)) as [delta|] eqn:Hdelta; [|by right].
  apply timedelta_inv in Hdelta as [-> _].
  destruct (datetime_add cs (n - 1)) as [stop|] eqn:Hstop; [|by right].
  apply datetime_add_inv in Hstop as [-> _]. cbv zeta.
  rewrite Z.min_l by lia.
  destruct (datetime_add _ 1) as [next|] eqn:Hnext; [|by right].
  apply datetime_add_inv in Hnext as [-> _].
  apply IH. lia.
Qed.

Lemma split_loop_negative (cs e n : Z) (m : nat) :
  (n < 0)%Z → (cs < e)%Z → (e ≤ date_max)%Z → (cs - date_min < Z.of_nat m)%Z →
  ∀ (fuel : nat) (pairs : list (date * date)), (m < fuel)%nat →
  split_loop fuel cs e n pairs = Some OverflowError.
Proof.
  intros Hn. revert cs. induction m as [|m IH]; intros cs Hlt Hmax Hm fuel pairs Hfuel.
  - destruct fuel as [|fuel]; [lia|].
    + cbn [split_loop]. rewrite bool_decide_eq_true_2 by done.
      destruct (timedelta (n - 1)) as [delta|] eqn:Hdelta; [|done].
      apply timedelta_inv in Hdelta as [-> _].
      rewrite datetime_add_Overflow by lia. done.
  - destruct fuel as [|fuel]; [lia|].
    cbn [split_loop]. rewrite bool_decide_eq_true_2 by done.
    destruct (timedelta (n - 1)) as [delta|] eqn:Hdelta; [|done].
    apply timedelta_inv in Hdelta as [-> _].
    destruct (datetime_add cs (n - 1)) as [stop|] eqn:Hstop; [|done].
    apply datetime_add_inv in Hstop as [-> Hrange]. cbv zeta.
    rewrite Z.min_l by lia.
    rewrite datetime_add_Returned by lia.
    apply IH; lia.
Qed.

(** X16: with [n_days] not positive and the start date before the end date, the
    call never returns a list: [n_days = 0] repeats the pass from the same
    start for ever, and a negative [n_days] walks back to 0001-01-01 and
    raises OverflowError. *)
Theorem split_pairs_nonpositive (start_date end_date n_days : Z) :
  (date_min ≤ start_date)%Z → (start_date < end_date)%Z →
  (end_date ≤ date_max)%Z → (n_days ≤ 0)%Z →
  (∀ fuel pairs,
     split_into_date_pairs fuel start_date end_date n_days ≠ Some (Returned pairs))
  ∧ (n_days = 0%Z → (date_min < start_date)%Z →
     ∀ fuel, split_into_date_pairs fuel start_date end_date n_days = None)
  ∧ ((n_days < 0)%Z →
     ∃ fuel0, ∀ fuel, (fuel0 ≤ fuel)%nat →
       split_into_date_pairs fuel start_date end_date n_days = Some OverflowError).
Proof.
  intros Hmin Hlt Hmax Hn. unfold split_into_date_pairs. split_and!.
  - intros fuel pairs.
    destruct (split_loop_nonpositive fuel start_date end_date n_days [] Hn Hlt)
      as [-> | ->]; done.
  - intros -> Hmin' fuel. by apply split_loop_zero.
  - intros Hneg. exists (S (Z.to_nat (start_date - date_min + 1))).
    intros fuel Hfuel.
    apply (split_loop_negative _ _ _ (Z.to_nat (start_date - date_min + 1)));
      (done || lia).
Qed.

(** ** [amfi.Amfi._get_schemes_from_amfi] *)

Section schemes_facts.
Variable isspace : N → bool.

Lemma schemes_loop_acc (raw_lines : list str) (house : option str)
    (lines : list (list (option str))) :
  schemes_loop isspace raw_lines house lines
  = lines ++ schemes_loop isspace raw_lines house [].
Proof.
  revert house lines. induction raw_lines as [|line rest IH]; intros house lines.
  - cbn [schemes_loop]. by rewrite app_nil_r.
  - cbn [schemes_loop]. cbv zeta.
    destruct (endswith _ mutual_fund); [apply IH|].
    case_bool_decide; [apply IH|].
    rewrite IH. rewrite (IH _ ([] ++ _)). by rewrite <-app_assoc.
Qed.

Lemma schemes_loop_app (before after : list str) (house : option str)
    (lines : list (list (option str))) :
  schemes_loop isspace (before ++ after) house lines
  = schemes_loop isspace after
      (match fund_house_of isspace before with
       | Some h => Some h
       | None => house
       end)
      (schemes_loop isspace before house lines).
Proof.
  revert house lines. induction before as [|line rest IH]; intros house lines.
  - reflexivity.
  - cbn [app schemes_loop]. cbv zeta. unfold fund_house_of. cbn [fmap list_fmap].
    fold (fmap (M:=list) (strip isspace) rest).
    destruct (endswith (strip isspace line) mutual_fund) eqn:Hhouse.
    + rewrite filter_cons_True by done. rewrite IH. unfold fund_house_of.
      rewrite last_cons. by destruct (last _).
    + rewrite filter_cons_False by (by rewrite Hhouse).
      case_bool_decide; by rewrite IH.
Qed.

(** X17: what a further line adds to the rows [_get_schemes_from_amfi] builds:
    nothing when, stripped, it ends with ["Mutual Fund"] or has fewer than 5
    fields between semicolons; otherwise one row, its fields followed by the
    last earlier line after the header that, stripped, ends with
    ["Mutual Fund"] ([None] when there is none). The header line gives no
    row and no fund house. *)
Theorem schemes_rows_snoc (header : str) (body : list str) (line : str) :
  get_schemes_lines isspace (header :: body ++ [line])
  = get_schemes_lines isspace (header :: body)
    ++ (let s := strip isspace line in
        if endswith s mutual_fund then []
        else if bool_decide (length (split semicolon s) < 5)%nat then []
        else [(Some <$> split semicolon s) ++ [fund_house_of isspace body]]).
Proof.
  unfold get_schemes_lines. cbn [skipn]. rewrite !drop_0, schemes_loop_app.
  cbn [schemes_loop]. cbv zeta.
  destruct (endswith _ mutual_fund); [by rewrite app_nil_r|].
  case_bool_decide; [by rewrite app_nil_r|].
  by destruct (fund_house_of isspace body).
Qed.

Lemma split_no_sep (sep : N) (s field : str) :
  field ∈ split sep s → sep ∉ field.
Proof.
  revert field. induction s as [|c s IH]; intros field; cbn [split].
  - intros ->%list_elem_of_singleton. apply not_elem_of_nil.
  - case_decide as Hc.
    + intros [->|Hin]%elem_of_cons; [apply not_elem_of_nil|by apply IH].
    + destruct (split sep s) as [|f fs].
      * intros ->%list_elem_of_singleton.
        intros [->|Hin]%elem_of_cons; [done|by apply elem_of_nil in Hin].
      * intros [->|Hin]%elem_of_cons.
        -- intros [->|Hin]%elem_of_cons; [done|].
           revert Hin. apply IH, elem_of_cons. by left.
        -- apply IH, elem_of_cons. by right.
Qed.

Lemma fund_house_of_Some (before : list str) (h : str) :
  fund_house_of isspace before = Some h →
  endswith h mutual_fund = true ∧ ∃ line, line ∈ before ∧ h = strip isspace line.
Proof.
  unfold fund_house_of. intros Hlast%last_Some_elem_of.
  apply list_elem_of_filter in Hlast as [Hends Hin].
  apply list_elem_of_fmap in Hin as (line & -> & Hline).
  split; [done|]. by exists line.
Qed.

(** X18: the rows [_get_schemes_from_amfi] builds: each is made of the fields of
    a line after the header which, stripped, does not end with
    ["Mutual Fund"] and has at least 5 fields, none holding a semicolon,
    followed by the fund house; the fund house is [None] or a stripped line
    after the header that ends with ["Mutual Fund"]. *)
Theorem schemes_rows_shape (raw_lines : list str) (row : list (option str)) :
  row ∈ get_schemes_lines isspace raw_lines →
  ∃ line fields house,
    line ∈ drop 1 raw_lines
    ∧ fields = split semicolon (strip isspace line)
    ∧ row = (Some <$> fields) ++ [house]
    ∧ (5 ≤ length fields)%nat
    ∧ (∀ field, field ∈ fields → semicolon ∉ field)
    ∧ endswith (strip isspace line) mutual_fund = false
    ∧ match house with
      | None => True
      | Some h =>
          endswith h mutual_fund = true
          ∧ ∃ l, l ∈ drop 1 raw_lines ∧ h = strip isspace l
      end.
Proof.
  unfold get_schemes_lines. generalize (drop 1 raw_lines). intros body.
  induction body as [|line body IH] using rev_ind.
  - intros Hin. by apply elem_of_nil in Hin.
  - rewrite schemes_loop_app. cbn [schemes_loop]. cbv zeta.
    assert (∀ l, l ∈ body → l ∈ body ++ [line]) as Hbody.
    { intros l Hl. apply elem_of_app. by left. }
    assert (row ∈ schemes_loop isspace body None [] →
            ∃ line0 fields house,
              line0 ∈ body ++ [line]
              ∧ fields = split semicolon (strip isspace line0)
              ∧ row = (Some <$> fields) ++ [house]
              ∧ (5 ≤ length fields)%nat
              ∧ (∀ field, field ∈ fields → semicolon ∉ field)
              ∧ endswith (strip isspace line0) mutual_fund = false
              ∧ match house with
                | None => True
                | Some h =>
                    endswith h mutual_fund = true
                    ∧ ∃ l, l ∈ body ++ [line] ∧ h = strip isspace l
                end) as Hold.
    { intros (line0 & fields & house & Hl & Hf & Hrow & Hlen & Hsep & Hends & Hh)%IH.
      exists line0, fields, house. split_and!; [by apply Hbody|done..|].
      destruct house as [h|]; [|done]. destruct Hh as (? & l & Hl' & ?).
      split; [done|]. exists l. split; [by apply Hbody|done]. }
    destruct (endswith (strip isspace line) mutual_fund) eqn:Hends; [exact Hold|].
    case_bool_decide as Hlen; [exact Hold|].
    intros [Hin|Hin]%elem_of_app; [by apply Hold|].
    apply list_elem_of_singleton in Hin as ->.
    exists line, (split semicolon (strip isspace line)).
    eexists. split_and!; [|reflexivity|reflexivity|lia| |done|].
    + apply elem_of_app. right. by apply list_elem_of_singleton.
    + intros field. apply split_no_sep.
    + destruct (fund_house_of isspace body) as [h|] eqn:Hh; [|done].
      apply fund_house_of_Some in Hh as (? & l & Hl & ?).
      split; [done|]. exists l. split; [by apply Hbody|done].
Qed.

End schemes_facts.

(** ** [amfi.Amfi.get_nav_history] *)

Section nav_history_facts.
Context {record frame error : Type}.
Variable fetch : date → date → error + list record.
Variable frame_of_records : list record → exn + frame.

Lemma fetch_ranges_requests (date_ranges : list (date * date))
    (nav_records : list record) (requests : list (date * date)) :
  ∃ made,
    (fetch_ranges fetch date_ranges nav_records requests).2 = requests ++ made
    ∧ made `prefix_of` date_ranges
    ∧ match (fetch_ranges fetch date_ranges nav_records requests).1 with
      | inr _ => made = date_ranges
      | inl e => ∃ p, last made = Some p ∧ fetch p.1 p.2 = inl e
      end.
Proof.
  revert nav_records requests.
  induction date_ranges as [|[from_date to_date] rest IH];
    intros nav_records requests; cbn [fetch_ranges].
  - exists []. cbn [fst snd]. by rewrite app_nil_r.
  - cbv zeta. destruct (fetch from_date to_date) as [e|records] eqn:Hfetch.
    + exists [(from_date, to_date)]. cbn [fst snd]. split_and!; [done| |].
      * by apply prefix_cons, prefix_nil.
      * by exists (from_date, to_date).
    + destruct (IH (nav_records ++ records) (requests ++ [(from_date, to_date)]))
        as (made & Hreq & Hpre & Hend).
      exists ((from_date, to_date) :: made). split_and!.
      * by rewrite Hreq, <-app_assoc.
      * by apply prefix_cons.
      * destruct (fetch_ranges _ _ _ _).1 as [e|recs]; [|by rewrite Hend].
        destruct Hend as (p & Hlast & Hp). exists p. split; [|done].
        destruct made as [|q made]; [done|]. by rewrite last_cons_cons.
Qed.

(** X19: the requests of [get_nav_history], for a start date from 0001-01-01 and
    an end date from which five years still fit before 9999-12-31: they go
    through the windows of 1825 days from the start date, in order, the
    last one cut at the end date, and stop after the first request that
    fails; the call never ends in an OverflowError. *)
Theorem nav_history_requests (fuel : nat) (start_date end_date : date)
    (out : nav_history frame error) (requests : list (date * date)) :
  (date_min ≤ start_date)%Z → (end_date + 1825 - 1 ≤ date_max)%Z →
  get_nav_history fetch frame_of_records fuel start_date end_date
    = Some (out, requests) →
  requests `prefix_of` windows start_date end_date 1825
  ∧ match out with
    | FetchFailed e => ∃ p, last requests = Some p ∧ fetch p.1 p.2 = inl e
    | DateOverflow => False
    | _ => requests = windows start_date end_date 1825
    end.
Proof.
  intros Hmin Hmax. unfold get_nav_history, split_into_date_pairs.
  change (365 * 5)%Z with 1825%Z.
  rewrite split_loop_windows by (done || lia).
  case_bool_decide; [|done]. cbn [app].
  destruct (fetch_ranges_requests (windows start_date end_date 1825) [] [])
    as (made & Hreq & Hpre & Hend).
  destruct (fetch_ranges fetch _ [] []) as [[e|nav_records] reqs].
  - cbn [fst snd] in *. intros [= <- <-]. subst reqs. by cbn [app].
  - cbn [fst snd] in *. subst reqs made.
    destruct (_create_dataframe _ _); intros [= <- <-]; by cbn [app].
Qed.

(** X20: when the start date is not before the end date, as when both are the
    same day, [get_nav_history] makes no request and fails with the
    KeyError of the column ['nav'] that the empty frame lacks. *)
Theorem nav_history_empty_range (fuel : nat) (start_date end_date : date) :
  (end_date ≤ start_date)%Z → fuel ≠ O →
  get_nav_history fetch frame_of_records fuel start_date end_date
  = Some (FrameFailed KeyError, []).
Proof.
  intros Hle Hfuel. destruct fuel as [|fuel]; [done|].
  unfold get_nav_history, split_into_date_pairs. cbn [split_loop].
  rewrite bool_decide_eq_false_2 by lia. reflexivity.
Qed.

Lemma fetch_ranges_no_records (date_ranges : list (date * date))
    (nav_records : list record) (requests : list (date * date)) :
  (∀ p, p ∈ date_ranges → fetch p.1 p.2 = inr []) →
  fetch_ranges fetch date_ranges nav_records requests
  = (inr nav_records, requests ++ date_ranges).
Proof.
  revert nav_records requests.
  induction date_ranges as [|[from_date to_date] rest IH];
    intros nav_records requests Hempty; cbn [fetch_ranges].
  - by rewrite app_nil_r.
  - cbv zeta.
    pose proof (Hempty (from_date, to_date)
                  (proj2 (elem_of_cons _ _ _) (or_introl eq_refl))) as Hfirst.
    cbn [fst snd] in Hfirst. rewrite Hfirst, IH.
    + by rewrite app_nil_r, <-app_assoc.
    + intros p Hp. apply Hempty, elem_of_cons. by right.
Qed.

(** X21: when every request is answered with no records, the answer to a range
    without data, [get_nav_history] makes all its requests and then fails
    with the KeyError of the column ['nav'] that the empty frame lacks. *)
Theorem nav_history_no_records (fuel : nat) (start_date end_date : date) :
  (date_min ≤ start_date)%Z → (end_date + 1825 - 1 ≤ date_max)%Z →
  (length (windows start_date end_date 1825) < fuel)%nat →
  (∀ p, p ∈ windows start_date end_date 1825 → fetch p.1 p.2 = inr []) →
  get_nav_history fetch frame_of_records fuel start_date end_date
  = Some (FrameFailed KeyError, windows start_date end_date 1825).
Proof.
  intros Hmin Hmax Hfuel Hempty. unfold get_nav_history, split_into_date_pairs.
  change (365 * 5)%Z with 1825%Z.
  rewrite split_loop_windows by (done || lia).
  rewrite bool_decide_eq_true_2 by done. cbn [app].
  rewrite fetch_ranges_no_records by done. reflexivity.
Qed.

End nav_history_facts.

(** * Concrete runs, on exact rationals *)

Module Runs.
Import Samples.

Example nav_sparse_days : day 2023 1 1 - day 2021 1 1 = 730.
Proof. reflexivity. Qed.

Example cagr_doubling : cagr nav_doubling = Ok 1%Q.
Proof. vm_compute. reflexivity. Qed.

Lemma cagr_formula_witness :
  nav_doubling ≠ [] ∧ ¬ fails_with (cagr nav_doubling) InvalidInput
  ∧ cagr nav_doubling
    = Ok (round (sub (pow (div 200%Q 100%Q) (div one (div (of_Z 365) (of_Z 365))))
                   one) 3).
Proof.
  assert (nav_doubling ≠ []) as Hne by done.
  destruct (cagr_formula nav_doubling Hne) as (r1 & r2 & Hh & Hl & Hfail & Hok).
  injection Hh as <-. injection Hl as <-.
  assert (¬ ((leb (100%Q) zero = true) ∨ (leb (div (of_Z (day 2022 1 1 - day 2021 1 1)) (of_Z 365)) zero = true)))
    as Hvalid by (vm_compute; intros [?|?]; discriminate).
  split; [exact Hne|]. split.
  - intros Hf. apply Hvalid, Hfail, Hf.
  - exact (Hok Hvalid).
Defined.

(** C4, as stated, fails: on the unsorted series the ["Max_CAGR"] entry is
    [1] while [cagr] of the same series raises; on the sparse sorted series
    [cagr] returns [1] while the call with windows [[1; -1]] raises in its
    1-year window and yields no entry. *)
Lemma trailing_Max_counterexample :
  (λ m : gmap string (option Q), m !! "Max_CAGR")
    <$> calculate_trailing_cagr nav_unsorted [1; -1] = Ok (Some (Some 1%Q))
  ∧ cagr nav_unsorted = Raise InvalidCagrData
  ∧ calculate_trailing_cagr nav_sparse [1; -1] = Raise InvalidCagrData
  ∧ cagr nav_sparse = Ok 1%Q.
Proof. split_and!; vm_compute; reflexivity. Qed.

Lemma trailing_Max_is_cagr_witness :
  ∃ m v, calculate_trailing_cagr nav_doubling [1; -1] = Ok m
         ∧ m !! "Max_CAGR" = Some (Some v)
         ∧ cagr nav_doubling = Ok v.
Proof.
  assert (∃ m, calculate_trailing_cagr nav_doubling [1; -1] = Ok m) as [m Hm].
  { eexists. vm_compute. reflexivity. }
  destruct (trailing_Max_is_cagr nav_doubling m Hm) as (v & Hv & _ & Hsorted).
  exists m, v. split_and!; [exact Hm|exact Hv|]. apply Hsorted.
  repeat constructor; vm_compute; reflexivity.
Defined.

(** C6, as stated, fails: the [-1] window does not always succeed; on a
    single NAV point it raises the InvalidInput of [cagr]. *)
Lemma trailing_windows_counterexample :
  calculate_trailing_cagr nav_single [-1] = Raise InvalidCagrData
  ∧ kind_of InvalidCagrData = Some InvalidInput.
Proof. split; vm_compute; reflexivity. Qed.

Example trailing_absent :
  (λ m : gmap string (option Q), (m !! "Max_CAGR", m !! "2Y_CAGR", m !! "1Y_CAGR"))
    <$> calculate_trailing_cagr nav_doubling [2; 1; -1]
  = Ok (Some (Some 1%Q), Some None, Some (Some 1%Q)).
Proof. vm_compute. reflexivity. Qed.

Example rolling_yearly :
  calculate_rolling_returns nav_yearly (years_offset 1)
  = Ok {| max_returns := (1 # 5)%Q;
          max_return_period := (day 2022 1 1, day 2023 1 1);
          min_returns := (1 # 10)%Q;
          min_return_period := (day 2021 1 1, day 2022 1 1);
          avg_return := (3 # 20)%Q |}.
Proof. vm_compute. reflexivity. Qed.


Example sip_late_run :
  calculate_sip_returns sip_late nav_short
  = Ok {| total_invested := 2000%Q;
          current_value := 3000%Q;
          absolute_returns := 1000%Q;
          return_percentage := 50%Q;
          annualized_return := (1067 # 100)%Q;
          total_units := 100%Q;
          current_nav := 30%Q;
          investment_period_days := 1461 |}.
Proof. vm_compute. reflexivity. Qed.

(** C2, as stated, fails: the second contribution has no NAV at or after
    its date and buys no units, yet [total_invested] is [2000], not the
    [1000] of the matched contribution. *)
Lemma sip_total_invested_counterexample :
  total_invested <$> calculate_sip_returns sip_late nav_short = Ok 2000%Q
  ∧ total_units <$> calculate_sip_returns sip_late nav_short = Ok 100%Q
  ∧ matched_amounts (sort_index sip_late) (sort_index nav_short) = [1000%Q]
  ∧ round (series_sum (matched_amounts (sort_index sip_late) (sort_index nav_short))) 2
    = 1000%Q.
Proof. split_and!; vm_compute; reflexivity. Qed.

Lemma sip_total_invested_all_witness :
  ∃ r, calculate_sip_returns sip_late nav_short = Ok r
       ∧ total_invested r = round (series_sum (map snd (sort_index sip_late))) 2
       ∧ total_invested r = 2000%Q.
Proof.
  destruct (sip_total_invested_all sip_late nav_short _ sip_late_run) as [Hinv _].
  eexists. split; [exact sip_late_run|]. split; [exact Hinv|reflexivity].
Defined.

Example sip_one_run :
  calculate_sip_returns sip_one nav_four_years
  = Ok {| total_invested := 1000%Q;
          current_value := 2000%Q;
          absolute_returns := 1000%Q;
          return_percentage := 100%Q;
          annualized_return := 0%Q;
          total_units := 100%Q;
          current_nav := 20%Q;
          investment_period_days := 1461 |}.
Proof. vm_compute. reflexivity. Qed.

(** C8, as stated, fails: with one contribution the reported annualized
    return is [0] although the elapsed years (4) and the amount invested
    (1000) are positive and the formula gives [18.92]. *)
Lemma sip_annualized_counterexample :
  annualized_return <$> calculate_sip_returns sip_one nav_four_years = Ok 0%Q
  ∧ ltb zero (div (of_Z (day 2024 1 1 - day 2020 1 1)) (lit (36525 # 100))) = true
  ∧ ltb zero (sip_invested sip_one nav_four_years) = true
  ∧ round (mul (sub (pow (div 2000%Q 1000%Q)
                       (div one (div (of_Z (day 2024 1 1 - day 2020 1 1))
                                   (lit (36525 # 100)))))
                  one) (of_Z 100)) 2
    = (473 # 25)%Q.
Proof. split_and!; vm_compute; reflexivity. Qed.

Example sip_two_run :
  calculate_sip_returns sip_two nav_four_years
  = Ok {| total_invested := 2000%Q;
          current_value := 3000%Q;
          absolute_returns := 1000%Q;
          return_percentage := 50%Q;
          annualized_return := (1067 # 100)%Q;
          total_units := 150%Q;
          current_nav := 20%Q;
          investment_period_days := 1461 |}.
Proof. vm_compute. reflexivity. Qed.

Lemma sip_annualized_return_witness :
  ∃ r first_date last_date nav_last,
    calculate_sip_returns sip_two nav_four_years = Ok r
    ∧ (1 < length sip_two)%nat
    ∧ index_first (sort_index sip_two) = Ok first_date
    ∧ index_last (sort_index nav_four_years) = Ok last_date
    ∧ iloc_last (sort_index nav_four_years) = Ok nav_last
    ∧ annualized_return r =
        if ltb zero (div (of_Z (last_date - first_date)) (lit (36525 # 100)))
           && ltb zero (sip_invested sip_two nav_four_years)
        then round (mul (sub (pow (div (mul (sip_units sip_two nav_four_years) nav_last)
                                     (sip_invested sip_two nav_four_years))
                                (div one (div (of_Z (last_date - first_date))
                                            (lit (36525 # 100)))))
                           one) (of_Z 100)) 2
        else zero.
Proof.
  assert (1 < length sip_two)%nat as Hlen by (vm_compute; lia).
  destruct (sip_annualized_return sip_two nav_four_years _ sip_two_run) as [_ Hmany].
  destruct (Hmany Hlen) as (f & l & n & Hf & Hl & Hn & Hann).
  eexists _, f, l, n. split; [exact sip_two_run|]. split_and!; assumption.
Defined.

Lemma sip_single_contribution_witness :
  length sip_one = 1%nat ∧ nav_four_years ≠ []
  ∧ ltb zero (div (of_Z (day 2024 1 1 - day 2020 1 1)) (lit (36525 # 100))) = true
  ∧ ltb zero (sip_invested sip_one nav_four_years) = true
  ∧ ∃ r, calculate_sip_returns sip_one nav_four_years = Ok r
         ∧ annualized_return r = zero.
Proof.
  assert (length sip_one = 1%nat) as Hlen by reflexivity.
  assert (nav_four_years ≠ []) as Hnav by discriminate.
  split_and!; [exact Hlen|exact Hnav|vm_compute; reflexivity..|].
  exact (sip_single_contribution sip_one nav_four_years Hlen Hnav).
Defined.

(** C3: a run on two cash flows and two dates with the guess [-1] ends in
    none of the outcomes the claim lists: the first pass divides by
    [(1 + rate) ** 1 = 0] and the [ZeroDivisionError] leaves [xirr]. *)
Theorem xirr_guess_minus_one :
  xirr_run flows_amounts flows_dates (-1)%Q 100 default_tolerance
  = (Raise ZeroDivisionError, [(-1)%Q])
  ∧ kind_of ZeroDivisionError = None
  ∧ npv_term (-1)%Q 110%Q (day 2022 1 1 - day 2021 1 1) = Raise ZeroDivisionError.
Proof. split_and!; vm_compute; reflexivity. Qed.

Example xirr_converges :
  xirr_run [(-100)%Q; 121%Q] [day 2021 1 1; day 2023 1 1] (2 # 10)%Q 100
    default_tolerance
  = (Ok (1 # 10)%Q,
     (xirr_run [(-100)%Q; 121%Q] [day 2021 1 1; day 2023 1 1] (2 # 10)%Q 100
        default_tolerance).2)
  ∧ length (xirr_run [(-100)%Q; 121%Q] [day 2021 1 1; day 2023 1 1] (2 # 10)%Q 100
              default_tolerance).2 = 5%nat.
Proof. split; vm_compute; reflexivity. Qed.

Example xirr_other_ends :
  xirr flows_amounts flows_dates 5%Q 100 default_tolerance = Raise RateOutOfBounds
  ∧ xirr flows_amounts [day 2021 1 1; day 2021 1 1] default_guess 100 default_tolerance
    = Raise DerivativeTooSmall
  ∧ xirr [(-100)%Q; 121%Q] [day 2021 1 1; day 2023 1 1] (2 # 10)%Q 1 default_tolerance
    = Raise (DidNotConverge 1)
  ∧ xirr [(-100)%Q] [day 2021 1 1] default_guess 100 default_tolerance
    = Raise TooFewCashflows
  ∧ xirr flows_amounts [day 2021 1 1] default_guess 100 default_tolerance
    = Raise LengthMismatch.
Proof. split_and!; vm_compute; reflexivity. Qed.


Lemma xirr_permutation_witness :
  zip flows_amounts_rev flows_dates_rev ≡ₚ zip flows_amounts flows_dates
  ∧ NoDup flows_dates
  ∧ xirr flows_amounts_rev flows_dates_rev default_guess 100 default_tolerance
    = xirr flows_amounts flows_dates default_guess 100 default_tolerance.
Proof.
  assert (zip flows_amounts_rev flows_dates_rev ≡ₚ zip flows_amounts flows_dates)
    as Hperm by apply perm_swap.
  assert (NoDup flows_dates) as Hnd.
  { refine (bool_decide_unpack (NoDup flows_dates) _). vm_compute. exact I. }
  split_and!; [exact Hperm|exact Hnd|].
  exact (xirr_permutation flows_amounts flows_amounts_rev flows_dates flows_dates_rev
           default_guess 100 default_tolerance eq_refl eq_refl Hperm Hnd).
Defined.

(** C9, as stated, fails when dates repeat: the flows of one day are added
    in the order they come in, and in floating point
    [((1e16 + 1) + 1e48 - 1e16) - 1e48] is [0] while
    [((1e16 - 1e16) + 1e48 - 1e48) + 1] is [1]; the first arrangement
    returns the guess, the second fails. *)
Lemma xirr_permutation_counterexample :
  length MoreSamples.flows_cancelling = length MoreSamples.dates_same_day
  ∧ zip MoreSamples.flows_cancelling_rev MoreSamples.dates_same_day
      ≡ₚ zip MoreSamples.flows_cancelling MoreSamples.dates_same_day
  ∧ xirr MoreSamples.flows_cancelling MoreSamples.dates_same_day
      (lit (1 # 10)) 100 (lit (1 # 1000000))
    = Ok (lit (1 # 10))
  ∧ xirr MoreSamples.flows_cancelling_rev MoreSamples.dates_same_day
      (lit (1 # 10)) 100 (lit (1 # 1000000))
    = Raise DerivativeTooSmall
  ∧ kind_of DerivativeTooSmall = Some ConvergenceFailure.
Proof.
  split_and!; [reflexivity| |vm_compute; reflexivity..].
  exact (perm_five _ _ _ _ _).
Qed.

End Runs.

(** * Concrete runs of the further properties *)

Module Checks.
Import Samples MoreSamples.

Lemma nav_doubling_dates : NoDup (map fst nav_doubling).
Proof.
  refine (bool_decide_unpack (NoDup (map fst nav_doubling)) _).
  vm_compute. exact I.
Qed.

Lemma nav_yearly_dates : NoDup (map fst nav_yearly).
Proof.
  refine (bool_decide_unpack (NoDup (map fst nav_yearly)) _).
  vm_compute. exact I.
Qed.

Lemma trailing_keys_witness :
  ∃ m, calculate_trailing_cagr nav_doubling [1; -1] = Ok m
       ∧ ∀ k : string, is_Some (m !! k) ↔ ∃ w, w ∈ [1; -1] ∧ window_key w = k.
Proof.
  assert (∃ m, calculate_trailing_cagr nav_doubling [1; -1] = Ok m) as [m Hm].
  { eexists. vm_compute. reflexivity. }
  exists m. split; [exact Hm|]. exact (trailing_keys nav_doubling [1; -1] m Hm).
Defined.

Lemma trailing_windows_set_witness :
  (∀ w : Z, w ∈ [1; -1] ↔ w ∈ [-1; 1; 1])
  ∧ ∃ m, calculate_trailing_cagr nav_doubling [1; -1] = Ok m
         ∧ calculate_trailing_cagr nav_doubling [-1; 1; 1] = Ok m.
Proof.
  assert (∀ w : Z, w ∈ [1; -1] ↔ w ∈ [-1; 1; 1]) as Hsame.
  { intros w. rewrite !elem_of_cons, elem_of_nil. tauto. }
  split; [exact Hsame|].
  assert (∃ m, calculate_trailing_cagr nav_doubling [1; -1] = Ok m) as [m Hm].
  { eexists. vm_compute. reflexivity. }
  exists m. split; [exact Hm|].
  exact (trailing_windows_set nav_doubling [1; -1] [-1; 1; 1] m Hsame Hm).
Defined.

Lemma trailing_rows_order_witness :
  nav_unsorted ≡ₚ nav_doubling ∧ NoDup (map fst nav_doubling)
  ∧ calculate_trailing_cagr nav_unsorted [1; -1]
    = calculate_trailing_cagr nav_doubling [1; -1].
Proof.
  assert (nav_unsorted ≡ₚ nav_doubling) as Hperm by apply perm_swap.
  split_and!; [exact Hperm|exact nav_doubling_dates|].
  exact (trailing_rows_order nav_doubling nav_unsorted [1; -1] Hperm
           nav_doubling_dates).
Defined.

Lemma rolling_max_is_latest_match_witness :
  ∃ m cur n,
    calculate_rolling_returns nav_yearly (years_offset 1) = Ok m
    ∧ cur ∈ nav_yearly ∧ n ∈ nav_yearly
    ∧ max_return_period m = (date_sub cur.1 (years_offset 1), cur.1)
    ∧ n.1 ≤ date_sub cur.1 (years_offset 1)
    ∧ max_returns m = round (div (sub cur.2 n.2) n.2) 3.
Proof.
  destruct (rolling_max_is_latest_match nav_yearly (years_offset 1) _
              Runs.rolling_yearly)
    as (cur & n & Hcur & Hn & Hperiod & Hle & _ & Hmax).
  eexists _, cur, n. split; [exact Runs.rolling_yearly|].
  split_and!; assumption.
Defined.

Lemma rolling_extremes_bound_witness :
  ∃ m, calculate_rolling_returns nav_yearly (years_offset 1) = Ok m
    ∧ max_returns m
        ∈ map returns (with_returns (rolling_rows nav_yearly (years_offset 1)))
    ∧ min_returns m
        ∈ map returns (with_returns (rolling_rows nav_yearly (years_offset 1)))
    ∧ ∀ x, x ∈ map returns (with_returns (rolling_rows nav_yearly (years_offset 1))) →
        ltb (max_returns m) x = false ∧ ltb x (min_returns m) = false.
Proof.
  destruct (rolling_extremes_bound nav_yearly (years_offset 1) _
              Runs.rolling_yearly) as (Hmax & Hmin & Hall).
  eexists. split; [exact Runs.rolling_yearly|].
  split_and!; [exact Hmax|exact Hmin|exact Hall].
Defined.

Lemma nav_yearly_nonzero : ∀ r : date * Q, r ∈ nav_yearly → r.2 ≠ zero.
Proof.
  intros r Hr. unfold nav_yearly in Hr.
  rewrite !elem_of_cons, elem_of_nil in Hr.
  destruct Hr as [-> | [-> | [-> | []]]]; discriminate.
Qed.

Lemma rolling_failures_witness :
  (∀ r : date * Q, r ∈ nav_single → r.2 ≠ zero)
  ∧ nav_single ≠ []
  ∧ fails_with (calculate_rolling_returns nav_single (years_offset 1)) EmptyResult.
Proof.
  assert (∀ r : date * Q, r ∈ nav_single → r.2 ≠ zero) as Hnz.
  { intros r Hr. unfold nav_single in Hr.
    apply list_elem_of_singleton in Hr as ->. discriminate. }
  assert (nav_single ≠ []) as Hne by (unfold nav_single; discriminate).
  split_and!; [exact Hnz|exact Hne|].
  apply (proj2 (proj2 (rolling_failures nav_single (years_offset 1) Hnz))).
  split_and!; [exact Hne|vm_compute; reflexivity..|].
  intros r Hr. unfold nav_single in Hr.
  apply list_elem_of_singleton in Hr as ->. vm_compute. reflexivity.
Defined.

Lemma rolling_returns_iff_witness :
  NoDup (map fst nav_yearly) ∧ (∀ r : date * Q, r ∈ nav_yearly → r.2 ≠ zero)
  ∧ ((∃ m, calculate_rolling_returns nav_yearly (years_offset 1) = Ok m)
     ↔ keys_sorted (map (λ r, date_sub r.1 (years_offset 1)) nav_yearly) = true
       ∧ keys_sorted (map fst nav_yearly) = true
       ∧ ∃ r, r ∈ nav_yearly
           ∧ is_Some (asof_backward nav_yearly (date_sub r.1 (years_offset 1)))).
Proof.
  split_and!; [exact nav_yearly_dates|exact nav_yearly_nonzero|].
  exact (rolling_returns_iff nav_yearly (years_offset 1) nav_yearly_dates
           nav_yearly_nonzero).
Defined.

Lemma sip_units_earliest_nav_witness :
  ∃ r merged,
    calculate_sip_returns sip_late nav_short = Ok r
    ∧ total_units r = round (series_sum_skipna (map units merged)) 4
    ∧ map (λ row, (sip_date row, amount row)) merged = sort_index sip_late.
Proof.
  destruct (sip_units_earliest_nav sip_late nav_short _ Runs.sip_late_run)
    as (merged & Hunits & Hrows & _).
  eexists _, merged. split; [exact Runs.sip_late_run|]. split; assumption.
Defined.

Lemma sip_period_days_witness :
  sip_late ≠ [] ∧ nav_short ≠ []
  ∧ ∃ r c n,
      calculate_sip_returns sip_late nav_short = Ok r
      ∧ c ∈ sip_late ∧ n ∈ nav_short
      ∧ investment_period_days r = n.1 - c.1
      ∧ current_nav r = round n.2 2.
Proof.
  assert (sip_late ≠ []) as Hsip by (unfold sip_late; discriminate).
  assert (nav_short ≠ []) as Hnav by (unfold nav_short; discriminate).
  split_and!; [exact Hsip|exact Hnav|].
  destruct (sip_period_days sip_late nav_short Hsip Hnav)
    as (r & c & n & Hr & Hc & _ & Hn & _ & Hdays & Hcur).
  exists r, c, n. split_and!; assumption.
Defined.

Lemma sip_rows_order_witness :
  reverse sip_two ≡ₚ sip_two ∧ reverse nav_four_years ≡ₚ nav_four_years
  ∧ NoDup (map fst sip_two) ∧ NoDup (map fst nav_four_years)
  ∧ calculate_sip_returns (reverse sip_two) (reverse nav_four_years)
    = calculate_sip_returns sip_two nav_four_years.
Proof.
  assert (NoDup (map fst sip_two)) as Hsip.
  { refine (bool_decide_unpack (NoDup (map fst sip_two)) _). vm_compute. exact I. }
  assert (NoDup (map fst nav_four_years)) as Hnav.
  { refine (bool_decide_unpack (NoDup (map fst nav_four_years)) _).
    vm_compute. exact I. }
  split_and!; [apply reverse_Permutation|apply reverse_Permutation
              |exact Hsip|exact Hnav|].
  exact (sip_rows_order sip_two (reverse sip_two) nav_four_years
           (reverse nav_four_years) (reverse_Permutation _)
           (reverse_Permutation _) Hsip Hnav).
Defined.

Lemma xirr_days_from_earliest_witness :
  length flows_amounts_rev = length flows_dates_rev ∧ flows_dates_rev ≠ []
  ∧ ∃ start_date,
      start_date ∈ flows_dates_rev
      ∧ sorted_flows flows_amounts_rev flows_dates_rev
          ≡ₚ zip flows_amounts_rev (map (λ d, d - start_date) flows_dates_rev)
      ∧ head (map snd (sorted_flows flows_amounts_rev flows_dates_rev)) = Some 0.
Proof.
  assert (flows_dates_rev ≠ []) as Hne by (unfold flows_dates_rev; discriminate).
  split_and!; [reflexivity|exact Hne|].
  destruct (xirr_days_from_earliest flows_amounts_rev flows_dates_rev eq_refl Hne)
    as (start_date & Hin & _ & Hperm & _ & Hhead & _).
  exists start_date. split_and!; assumption.
Defined.

Lemma five_years_range :
  date_min ≤ five_years_start ∧ 1 ≤ 1825
  ∧ five_years_end + 1825 - 1 ≤ date_max.
Proof. split_and!; apply Z.leb_le; vm_compute; reflexivity. Qed.

Example split_five_years :
  split_into_date_pairs 2 five_years_start five_years_end 1825
  = Some (Returned [(day 2015 1 1, day 2019 12 30)]).
Proof. vm_compute. reflexivity. Qed.

Lemma split_pairs_windows_witness :
  date_min ≤ five_years_start ∧ 1 ≤ 1825
  ∧ five_years_end + 1825 - 1 ≤ date_max
  ∧ (length (windows five_years_start five_years_end 1825) < 2)%nat
  ∧ split_into_date_pairs 2 five_years_start five_years_end 1825
    = Some (Returned (windows five_years_start five_years_end 1825)).
Proof.
  destruct five_years_range as (Hmin & Hn & Hmax).
  assert (length (windows five_years_start five_years_end 1825) < 2)%nat as Hlen.
  { apply Nat.ltb_lt. vm_compute. reflexivity. }
  split_and!; [exact Hmin|exact Hn|exact Hmax|exact Hlen|].
  exact (proj1 (split_pairs_windows 2 five_years_start five_years_end 1825
                  Hmin Hn Hmax) Hlen).
Defined.

Lemma split_pairs_cover_witness :
  date_min ≤ five_years_start ∧ 1 ≤ 1825
  ∧ five_years_end + 1825 - 1 ≤ date_max
  ∧ split_into_date_pairs 2 five_years_start five_years_end 1825
    = Some (Returned [(day 2015 1 1, day 2019 12 30)])
  ∧ ¬ ∃ p, p ∈ [(day 2015 1 1, day 2019 12 30)]
           ∧ p.1 ≤ five_years_end ≤ p.2.
Proof.
  destruct five_years_range as (Hmin & Hn & Hmax).
  split_and!; [exact Hmin|exact Hn|exact Hmax|exact split_five_years|].
  intros Hcovered.
  apply (split_pairs_cover 2 five_years_start five_years_end 1825 _
           Hmin Hn Hmax split_five_years five_years_end) in Hcovered
    as (_ & _ & Hgap).
  apply Hgap. split; [reflexivity|]. vm_compute. reflexivity.
Defined.

Lemma split_pairs_nonpositive_witness :
  date_min ≤ five_years_start ∧ five_years_start < five_years_end
  ∧ five_years_end ≤ date_max ∧ 0 ≤ 0
  ∧ ∀ fuel, split_into_date_pairs fuel five_years_start five_years_end 0 = None.
Proof.
  assert (date_min ≤ five_years_start) as Hmin
    by (apply Z.leb_le; vm_compute; reflexivity).
  assert (date_min < five_years_start) as Hmin'
    by (apply Z.ltb_lt; vm_compute; reflexivity).
  assert (five_years_start < five_years_end) as Hlt
    by (apply Z.ltb_lt; vm_compute; reflexivity).
  assert (five_years_end ≤ date_max) as Hmax
    by (apply Z.leb_le; vm_compute; reflexivity).
  assert (0 ≤ 0) as Hn by reflexivity.
  split_and!; [exact Hmin|exact Hlt|exact Hmax|exact Hn|].
  exact (proj1 (proj2 (split_pairs_nonpositive five_years_start five_years_end 0
                         Hmin Hlt Hmax Hn)) eq_refl Hmin').
Defined.

Example schemes_sample :
  get_schemes_lines space_or_newline raw_sample = [row_sample].
Proof. vm_compute. reflexivity. Qed.

Lemma schemes_rows_shape_witness :
  row_sample ∈ get_schemes_lines space_or_newline raw_sample
  ∧ ∃ line fields house,
      line ∈ drop 1 raw_sample
      ∧ row_sample = (Some <$> fields) ++ [house]
      ∧ (5 ≤ length fields)%nat.
Proof.
  assert (row_sample ∈ get_schemes_lines space_or_newline raw_sample) as Hin.
  { rewrite schemes_sample. apply list_elem_of_singleton. reflexivity. }
  split; [exact Hin|].
  destruct (schemes_rows_shape space_or_newline raw_sample row_sample Hin)
    as (line & fields & house & Hline & _ & Hrow & Hlen & _).
  exists line, fields, house. split_and!; assumption.
Defined.

Lemma nav_history_requests_witness :
  date_min ≤ five_years_start ∧ five_years_end + 1825 - 1 ≤ date_max
  ∧ get_nav_history fetch_first_day frame_of_days 2 five_years_start five_years_end
    = Some (NavFrame [day 2015 1 1], [(day 2015 1 1, day 2019 12 30)])
  ∧ [(day 2015 1 1, day 2019 12 30)]
    = windows five_years_start five_years_end 1825.
Proof.
  destruct five_years_range as (Hmin & _ & Hmax).
  assert (get_nav_history fetch_first_day frame_of_days 2 five_years_start
            five_years_end
          = Some (NavFrame [day 2015 1 1], [(day 2015 1 1, day 2019 12 30)]))
    as Hrun by (vm_compute; reflexivity).
  split_and!; [exact Hmin|exact Hmax|exact Hrun|].
  exact (proj2 (nav_history_requests fetch_first_day frame_of_days 2
                  five_years_start five_years_end _ _ Hmin Hmax Hrun)).
Defined.

Lemma nav_history_empty_range_witness :
  five_years_start ≤ five_years_start ∧ 1%nat ≠ O
  ∧ get_nav_history fetch_first_day frame_of_days 1 five_years_start
      five_years_start
    = Some (FrameFailed KeyError, []).
Proof.
  assert (five_years_start ≤ five_years_start) as Hle by reflexivity.
  assert (1%nat ≠ O) as Hfuel by discriminate.
  split_and!; [exact Hle|exact Hfuel|].
  exact (nav_history_empty_range fetch_first_day frame_of_days 1
           five_years_start five_years_start Hle Hfuel).
Defined.

Lemma nav_history_no_records_witness :
  date_min ≤ five_years_start ∧ five_years_end + 1825 - 1 ≤ date_max
  ∧ (length (windows five_years_start five_years_end 1825) < 2)%nat
  ∧ (∀ p, p ∈ windows five_years_start five_years_end 1825 →
       fetch_nothing p.1 p.2 = inr [])
  ∧ get_nav_history fetch_nothing frame_of_days 2 five_years_start five_years_end
    = Some (FrameFailed KeyError, windows five_years_start five_years_end 1825).
Proof.
  destruct five_years_range as (Hmin & _ & Hmax).
  assert (length (windows five_years_start five_years_end 1825) < 2)%nat as Hlen.
  { apply Nat.ltb_lt. vm_compute. reflexivity. }
  assert (∀ p, p ∈ windows five_years_start five_years_end 1825 →
            fetch_nothing p.1 p.2 = inr []) as Hempty by reflexivity.
  split_and!; [exact Hmin|exact Hmax|exact Hlen|exact Hempty|].
  exact (nav_history_no_records fetch_nothing frame_of_days 2 five_years_start
           five_years_end Hmin Hmax Hlen Hempty).
Defined.

End Checks.
